(** * Learnable fake quantization: reference kernels

    A shallow embedding of [torch/quantization/_learnable_fake_quantize.py]:
    the reference helpers [_quantize], [_quantize_vectorized],
    [_permute_to_axis_zero], [_calculate_X_grad_per_tensor],
    [_calculate_X_grad_per_channel], [_calculate_scale_grad],
    [_calculate_zero_point_grad] and the two autograd functions
    [_LearnableFakeQuantizePerTensorOp] and [_LearnableFakeQuantizePerChannelOp].

    Numbers.  Tensor elements are exact rationals ([Q]): the development is
    about the arithmetic the kernels perform, not about binary32 rounding
    error, overflow, NaN or infinities.  [Q] has a total division with
    [x / 0 == 0]; every statement that depends on a division assumes a
    non-zero scale.  Python integers ([q_min], [q_max], the effective
    zero-point) are [Z].

    Tensors.  A tensor is a shape together with an element for every
    multi-index; the elements outside the shape are irrelevant.  Binary
    operations broadcast the way torch does (shapes are aligned on the right
    and an axis of extent 1 is repeated).

    The last part embeds [generate_tests] of
    [torch/testing/_internal/distributed/rpc_utils.py], which builds the
    test classes of the RPC agents: classes are names, modules and bases,
    the returned [dict] is a list of entries in insertion order. *)

From Stdlib Require Import String Ascii.
From Stdlib Require Import QArith ZArith List Lia Lqa Qround Qabs Qminmax Bool Arith PeanoNat.
Import ListNotations.

Set Implicit Arguments.

Local Open Scope Q_scope.

(* ================================================================== *)
(** ** Scalar numerics *)
(* ================================================================== *)

(** Python's [int(x)] on a float: truncation toward zero. *)
Definition Qtrunc (x : Q) : Z := Z.quot (Qnum x) (Zpos (Qden x)).

(** [torch.round] on one element: nearest integer, ties to the even one. *)
Definition round_half_even (x : Q) : Z :=
  let f := Qfloor x in
  match Qcompare (x - inject_Z f) (1 # 2) with
  | Lt => f
  | Gt => (f + 1)%Z
  | Eq => if Z.even f then f else (f + 1)%Z
  end.

Definition Qround (x : Q) : Q := inject_Z (round_half_even x).

(** [x.clamp(lo, hi)] on one element: [min(max(x, lo), hi)]. *)
Definition Qclamp (x : Q) (lo hi : Z) : Q :=
  Qmin (Qmax x (inject_Z lo)) (inject_Z hi).

(** Sum of a list of elements, first element outermost. *)
Definition Qsum (l : list Q) : Q := fold_right Qplus 0 l.

(* ================================================================== *)
(** ** Tensors *)
(* ================================================================== *)

Local Open Scope nat_scope.

Record tensor (A : Type) : Type := mkTensor {
  shape : list nat;
  get : list nat -> A
}.

Arguments mkTensor {A} _ _.
Arguments shape {A} _.
Arguments get {A} _ _.

Definition ndim {A} (T : tensor A) : nat := length (shape T).

(** All multi-indices of a shape, in row-major order. *)
Fixpoint indices (s : list nat) : list (list nat) :=
  match s with
  | [] => [[]]
  | n :: s' => flat_map (fun i => map (cons i) (indices s')) (seq 0 n)
  end.

(** The elements of a tensor in row-major order. *)
Definition to_list {A} (T : tensor A) : list A :=
  map (get T) (indices (shape T)).

(** A one-dimensional tensor holding the elements of a list. *)
Definition of_list (l : list Q) : tensor Q :=
  mkTensor [length l] (fun idx => nth (hd 0 idx) l 0%Q).

(** A Python number used in an operation with tensors: zero-dimensional. *)
Definition scalar {A} (x : A) : tensor A := mkTensor [] (fun _ => x).
Definition py_float (x : Q) : tensor Q := scalar x.
Definition py_int (z : Z) : tensor Q := scalar (inject_Z z).

(** [T.item()]: the only element of a one-element tensor. *)
Definition item {A} (T : tensor A) : A := get T (repeat 0 (ndim T)).

(** *** Broadcasting *)

(** Broadcasting aligns shapes on the right; the two functions below work
    on reversed shapes and indices, last axis first. *)
Fixpoint bshape_r (s1 s2 : list nat) : list nat :=
  match s1, s2 with
  | [], _ => s2
  | _, [] => s1
  | a :: s1', b :: s2' => (if a =? 1 then b else a) :: bshape_r s1' s2'
  end.

Fixpoint bidx_r (s idx : list nat) : list nat :=
  match s, idx with
  | d :: s', i :: idx' => (if d =? 1 then 0 else i) :: bidx_r s' idx'
  | _, _ => []
  end.

(** Shape of the result of a broadcasting binary operation. *)
Definition bshape (s1 s2 : list nat) : list nat :=
  rev (bshape_r (rev s1) (rev s2)).

(** The index at which an operand of shape [s] is read when the result is
    read at [idx]: the trailing axes, with 0 on the axes of extent 1. *)
Definition bidx (s idx : list nat) : list nat :=
  rev (bidx_r (rev s) (rev idx)).

Definition tmap {A B} (f : A -> B) (T : tensor A) : tensor B :=
  mkTensor (shape T) (fun idx => f (get T idx)).

Definition tmap2 {A B C} (f : A -> B -> C) (T : tensor A) (U : tensor B)
  : tensor C :=
  mkTensor (bshape (shape T) (shape U))
           (fun idx => f (get T (bidx (shape T) idx))
                         (get U (bidx (shape U) idx))).

Definition tadd := tmap2 Qplus.
Definition tsub := tmap2 Qminus.
Definition tmul := tmap2 Qmult.
Definition tdiv := tmap2 Qdiv.
Definition tneg := tmap Qopp.
Definition tge := tmap2 (fun a b : Q => Qle_bool b a).
Definition tle := tmap2 (fun a b : Q => Qle_bool a b).
Definition teq := tmap2 Qeq_bool.
Definition tand := tmap2 andb.

Declare Scope tensor_scope.
Delimit Scope tensor_scope with T.
Infix "+:" := tadd (at level 50, left associativity) : tensor_scope.
Infix "-:" := tsub (at level 50, left associativity) : tensor_scope.
Infix "*:" := tmul (at level 40, left associativity) : tensor_scope.
Infix "/:" := tdiv (at level 40, left associativity) : tensor_scope.
Infix ">=:" := tge (at level 70, no associativity) : tensor_scope.
Infix "<=:" := tle (at level 70, no associativity) : tensor_scope.
Infix "==:" := teq (at level 70, no associativity) : tensor_scope.
Infix "&&:" := tand (at level 40, left associativity) : tensor_scope.
Local Open Scope tensor_scope.

(** [torch.round(T)], [T.clamp(lo, hi)], [B.float()], [T.type(torch.int64)]. *)
Definition round (T : tensor Q) : tensor Q := tmap Qround T.
Definition clamp (T : tensor Q) (lo hi : Z) : tensor Q :=
  tmap (fun x => Qclamp x lo hi) T.
Definition float (B : tensor bool) : tensor Q :=
  tmap (fun b : bool => if b then 1%Q else 0%Q) B.
Definition type_int64 (T : tensor Q) : tensor Q :=
  tmap (fun x => inject_Z (Qtrunc x)) T.

Definition ones (s : list nat) : tensor Q := mkTensor s (fun _ => 1%Q).
Definition zeros_like (T : tensor Q) : tensor Q :=
  mkTensor (shape T) (fun _ => 0%Q).

(** [res[mask] = src[mask]] for a boolean [mask] of the shape of [res] and
    [src]: the selected elements are copied, the others are kept. *)
Definition masked_copy (res : tensor Q) (mask : tensor bool) (src : tensor Q)
  : tensor Q :=
  mkTensor (shape res)
           (fun idx => if get mask idx then get src idx else get res idx).

(** *** Axes *)

(** [l[i] = v] on a Python list (an index out of range raises in Python and
    leaves the list unchanged here). *)
Fixpoint upd {A} (i : nat) (v : A) (l : list A) : list A :=
  match l, i with
  | [], _ => []
  | _ :: l', O => v :: l'
  | x :: l', S i' => x :: upd i' v l'
  end.

Fixpoint remove_nth {A} (k : nat) (l : list A) : list A :=
  match l, k with
  | [], _ => []
  | _ :: l', O => l'
  | x :: l', S k' => x :: remove_nth k' l'
  end.

Definition insert_at {A} (k : nat) (c : A) (l : list A) : list A :=
  firstn k l ++ c :: skipn k l.

(** [T.select(k, c)]; [T[c]] is [select 0 c T]. *)
Definition select {A} (k c : nat) (T : tensor A) : tensor A :=
  mkTensor (remove_nth k (shape T)) (fun idx => get T (insert_at k c idx)).

(** [T[i] = V]. *)
Definition set_select0 {A} (T : tensor A) (i : nat) (V : tensor A) : tensor A :=
  mkTensor (shape T)
           (fun idx => match idx with
                       | j :: rest => if j =? i then get V rest
                                      else get T idx
                       | [] => get T idx
                       end).

(** Position of the first occurrence of [a] in [p]. *)
Fixpoint index_of (a : nat) (p : list nat) : nat :=
  match p with
  | [] => 0
  | b :: p' => if b =? a then 0 else S (index_of a p')
  end.

(** [T.permute(p)]: axis [j] of the result is axis [p[j]] of [T]. *)
Definition permute {A} (T : tensor A) (p : list nat) : tensor A :=
  mkTensor (map (fun a => nth a (shape T) 0) p)
           (fun idx => get T (map (fun a => nth (index_of a p) idx 0)
                                  (seq 0 (length p)))).

(** Row-major position of a multi-index. *)
Fixpoint ravel (s idx : list nat) : nat :=
  match s, idx with
  | _ :: s', i :: idx' => i * length (indices s') + ravel s' idx'
  | _, _ => 0
  end.

(** [T.reshape(s)]: same elements in row-major order, new shape. *)
Definition reshape (T : tensor Q) (s : list nat) : tensor Q :=
  mkTensor s (fun idx => nth (ravel s idx) (to_list T) 0%Q).

(** *** Reductions *)

(** [T.sum()]: zero-dimensional. *)
Definition tsum (T : tensor Q) : tensor Q := scalar (Qsum (to_list T)).

(** [T.unsqueeze(0)]. *)
Definition unsqueeze0 {A} (T : tensor A) : tensor A :=
  mkTensor (1 :: shape T) (fun idx => get T (tl idx)).

(** [T.sum(a)] for one axis. *)
Definition sum_axis (a : nat) (T : tensor Q) : tensor Q :=
  mkTensor (remove_nth a (shape T))
           (fun idx => Qsum (map (fun i => get T (insert_at a i idx))
                                 (seq 0 (nth a (shape T) 0)))).

(** [T.sum(axes)] for a tuple of distinct axes in increasing order: the
    axes are reduced from the last to the first, so that the numbering of
    the remaining ones is not disturbed. *)
Definition sum_dims (axes : list nat) (T : tensor Q) : tensor Q :=
  fold_right sum_axis T axes.

(* ================================================================== *)
(** ** The reference helpers *)
(* ================================================================== *)

(** [_quantize(x, scale, zp, q_min, q_max, clamp=True)]. *)
Definition _quantize (x scale zp : tensor Q) (q_min q_max : Z) (clamp_ : bool)
  : tensor Q :=
  let xq := round (x *: (py_float 1 /: scale) +: zp) in
  if clamp_ then clamp xq q_min q_max else xq.

(** [_quantize_vectorized(x, ch_axis, scale, zp, q_min, q_max, clamp=True)]. *)
Definition _quantize_vectorized (x : tensor Q) (ch_axis : nat)
           (scale zp : tensor Q) (q_min q_max : Z) (clamp_ : bool) : tensor Q :=
  let axis_mask := repeat 1 (ndim x) in
  let axis_mask := upd ch_axis (nth ch_axis (shape x) 0) axis_mask in
  let scale_remasked := reshape scale axis_mask in
  let zp_remasked := reshape zp axis_mask in
  let xq := round (x *: (py_float 1 /: scale_remasked) +: zp_remasked) in
  if clamp_ then clamp xq q_min q_max else xq.

(** [_permute_to_axis_zero(X, axis)]. *)
Definition _permute_to_axis_zero (X : tensor Q) (axis : nat)
  : tensor Q * list nat :=
  let new_axis_list := seq 0 (ndim X) in
  let new_axis_list := upd axis 0 new_axis_list in
  let new_axis_list := upd 0 axis new_axis_list in
  let y := permute X new_axis_list in
  (y, new_axis_list).

(** [_calculate_X_grad_per_tensor(grad_Y, X, Xq, scale, zero_point,
    quant_min, quant_max)]. *)
Definition _calculate_X_grad_per_tensor (grad_Y X Xq scale zero_point : tensor Q)
           (quant_min quant_max : Z) : tensor Q :=
  let mask := (Xq >=: py_int quant_min) &&: (Xq <=: py_int quant_max) in
  let res := zeros_like grad_Y in
  masked_copy res mask grad_Y.

(** [_calculate_X_grad_per_channel(dY, X, scale, zero_point, axis,
    quant_min, quant_max)]; the [for] loop over the channels is the fold. *)
Definition _calculate_X_grad_per_channel (dY X scale zero_point : tensor Q)
           (axis : nat) (quant_min quant_max : Z) : tensor Q :=
  let '(X, permute_axis_list) := _permute_to_axis_zero X axis in
  let Xq := zeros_like X in
  let Xq :=
    fold_left
      (fun Xq i =>
         set_select0 Xq i
           (round (select 0 i X *: (py_float 1 /: select 0 i scale)
                   +: select 0 i zero_point)))
      (seq 0 (nth 0 (shape X) 0)) Xq in
  let Xq := permute Xq permute_axis_list in
  let mask := (Xq >=: py_int quant_min) &&: (Xq <=: py_int quant_max) in
  let res := zeros_like dY in
  masked_copy res mask dY.

(** The three regime indicators of [_calculate_scale_grad]. *)
Definition indicate_small_scale (X_q : tensor Q) (q_min : Z) : tensor Q :=
  float (X_q ==: py_int q_min).
Definition indicate_big_scale (X_q : tensor Q) (q_max : Z) : tensor Q :=
  float (X_q ==: py_int q_max).
Definition indicate_middle_scale (X_q : tensor Q) (q_min q_max : Z) : tensor Q :=
  ones (shape (indicate_small_scale X_q q_min))
  -: indicate_small_scale X_q q_min -: indicate_big_scale X_q q_max.

(** [_calculate_scale_grad(grad_X, X, X_fq, X_q, scale, zero_point,
    q_min, q_max)]. *)
Definition _calculate_scale_grad (grad_X X X_fq X_q scale zero_point : tensor Q)
           (q_min q_max : Z) : tensor Q :=
  let grad_small_scale := py_int q_min -: zero_point in
  let grad_big_scale := py_int q_max -: zero_point in
  let grad_middle_scale := (X_fq -: X) /: scale in
  let grad_scale :=
    indicate_small_scale X_q q_min *: grad_small_scale
    +: indicate_big_scale X_q q_max *: grad_big_scale
    +: indicate_middle_scale X_q q_min q_max *: grad_middle_scale in
  grad_scale *: grad_X.

(** The two regime indicators of [_calculate_zero_point_grad]. *)
Definition indicate_saturate_zp (X_q : tensor Q) (q_min q_max : Z) : tensor Q :=
  float (X_q ==: py_int q_min) +: float (X_q ==: py_int q_max).
Definition indicate_unsaturate_zp (X_q : tensor Q) (q_min q_max : Z) : tensor Q :=
  ones (shape (indicate_saturate_zp X_q q_min q_max))
  -: indicate_saturate_zp X_q q_min q_max.

(** [_calculate_zero_point_grad(grad_X, X, X_fq, X_q, scale, zero_point,
    q_min, q_max)]. *)
Definition _calculate_zero_point_grad
           (grad_X X X_fq X_q scale zero_point : tensor Q) (q_min q_max : Z)
  : tensor Q :=
  let grad_saturate_zp := tneg scale in
  let grad_unsaturate_zp := py_int 0 in
  let grad_zp :=
    indicate_saturate_zp X_q q_min q_max *: grad_saturate_zp
    +: indicate_unsaturate_zp X_q q_min q_max *: grad_unsaturate_zp in
  grad_zp *: grad_X.

(* ================================================================== *)
(** ** The native fake-quantize primitives *)
(* ================================================================== *)

(** Modelled from the spec: [torch.fake_quantize_per_tensor_affine], the
    native primitive called by the per-tensor forward; its code is not part
    of the Python module.  The spec gives its contract as
    [dequantize(clamp(round(x/scale + zp), qmin, qmax))], round then clamp,
    mapped back by [(q - zp) * scale]. *)
Definition fake_quantize_per_tensor_affine (X : tensor Q) (scale : Q)
           (zero_point quant_min quant_max : Z) : tensor Q :=
  tmap (fun x =>
          ((Qclamp (Qround (x / scale + inject_Z zero_point)) quant_min quant_max
            - inject_Z zero_point) * scale)%Q) X.

(** Modelled from the spec: [torch.fake_quantize_per_channel_affine], the
    native primitive called by the per-channel forward; its code is not part
    of the Python module.  The spec gives it the formula of the per-tensor
    primitive, every element using the scale and the zero-point of its
    index along the channel axis. *)
Definition fake_quantize_per_channel_affine (X scale zero_point : tensor Q)
           (axis : nat) (quant_min quant_max : Z) : tensor Q :=
  mkTensor (shape X)
           (fun idx =>
              let c := nth axis idx 0 in
              let s := get scale [c] in
              let z := get zero_point [c] in
              ((Qclamp (Qround (get X idx / s + z)) quant_min quant_max - z)
               * s)%Q).

(* ================================================================== *)
(** ** The autograd functions *)
(* ================================================================== *)

Module _LearnableFakeQuantizePerTensorOp.

(** What [forward] leaves in [ctx] for [backward]:
    [ctx.save_for_backward(X, scale, zero_point)] and
    [ctx.other = q_min, q_max, X_fq, grad_factor]. *)
Record ctx : Type := mkCtx {
  saved_tensors : tensor Q * tensor Q * tensor Q;
  other : Z * Z * tensor Q * Q
}.

Definition forward (X scale zero_point : tensor Q) (q_min q_max : Z)
           (grad_factor : Q) : ctx * tensor Q :=
  let scale_val := item scale in
  let zp_val := Qtrunc (item (clamp (zero_point +: py_float (1 # 2)) q_min q_max)) in
  let X_fq := fake_quantize_per_tensor_affine X scale_val zp_val q_min q_max in
  (mkCtx (X, scale, zero_point) (q_min, q_max, X_fq, grad_factor), X_fq).

(** Returns [(grad_X, grad_scale, grad_zp)]; the three [None] that follow
    in the source are the gradients of [q_min], [q_max], [grad_factor]. *)
Definition backward (c : ctx) (grad_Y : tensor Q)
  : tensor Q * tensor Q * tensor Q :=
  let '(X, scale, zero_point) := saved_tensors c in
  let '(q_min, q_max, X_fq, grad_factor) := other c in
  let zero_point :=
    py_int (Qtrunc (item (clamp (zero_point +: py_float (1 # 2)) q_min q_max))) in
  let X_q := _quantize X scale zero_point q_min q_max false in
  let grad_X :=
    _calculate_X_grad_per_tensor grad_Y X X_q scale zero_point q_min q_max in
  let X_q := clamp X_q q_min q_max in
  let grad_scale :=
    unsqueeze0 (tsum (_calculate_scale_grad
                        grad_X X X_fq X_q scale zero_point q_min q_max)) in
  let grad_zp :=
    unsqueeze0 (tsum (_calculate_zero_point_grad
                        grad_X X X_fq X_q scale zero_point q_min q_max)) in
  let grad_scale := grad_scale *: py_float grad_factor in
  let grad_zp := grad_zp *: py_float grad_factor in
  (grad_X, grad_scale, grad_zp).

End _LearnableFakeQuantizePerTensorOp.

Module _LearnableFakeQuantizePerChannelOp.

Record ctx : Type := mkCtx {
  saved_tensors : tensor Q * tensor Q * tensor Q;
  other : Z * Z * tensor Q * nat * Q
}.

Definition forward (X scale zero_point : tensor Q) (ch_axis : nat)
           (q_min q_max : Z) (grad_factor : Q) : ctx * tensor Q :=
  let scale_vec := scale in
  let zp_vec := type_int64 (clamp (zero_point +: py_float (1 # 2)) q_min q_max) in
  let X_fq :=
    fake_quantize_per_channel_affine X scale_vec zp_vec ch_axis q_min q_max in
  (mkCtx (X, scale, zero_point) (q_min, q_max, X_fq, ch_axis, grad_factor),
   X_fq).

(** The set of axes [set(range(X_fq.ndim))] without [ch_axis], as the
    tuple handed to [sum]. *)
Definition axis_for_reduction (X_fq : tensor Q) (ch_axis : nat) : list nat :=
  remove Nat.eq_dec ch_axis (seq 0 (ndim X_fq)).

Definition backward (c : ctx) (grad_Y : tensor Q)
  : tensor Q * tensor Q * tensor Q :=
  let '(X, scale, zero_point) := saved_tensors c in
  let '(q_min, q_max, X_fq, ch_axis, grad_factor) := other c in
  let axis_mask := repeat 1 (ndim X) in
  let axis_mask := upd ch_axis (nth ch_axis (shape X) 0) axis_mask in
  let scale_vec := scale in
  let zp_vec := type_int64 (clamp (zero_point +: py_float (1 # 2)) q_min q_max) in
  let grad_X :=
    _calculate_X_grad_per_channel grad_Y X scale_vec zp_vec ch_axis q_min q_max in
  let scale_vec := reshape scale_vec axis_mask in
  let zp_vec := reshape zp_vec axis_mask in
  let X_q :=
    _quantize_vectorized X ch_axis scale_vec zp_vec q_min q_max true in
  let axis_for_reduction := axis_for_reduction X_fq ch_axis in
  let grad_scale :=
    sum_dims axis_for_reduction
             (_calculate_scale_grad
                grad_X X X_fq X_q scale_vec zp_vec q_min q_max) in
  let grad_zp :=
    sum_dims axis_for_reduction
             (_calculate_zero_point_grad
                grad_X X X_fq X_q scale_vec zp_vec q_min q_max) in
  let grad_scale := grad_scale *: py_float grad_factor in
  let grad_zp := grad_zp *: py_float grad_factor in
  (grad_X, grad_scale, grad_zp).

End _LearnableFakeQuantizePerChannelOp.

Module PT := _LearnableFakeQuantizePerTensorOp.
Module PC := _LearnableFakeQuantizePerChannelOp.

(* ================================================================== *)
(** ** The module [_LearnableFakeQuantize] *)
(* ================================================================== *)

(** [torch.qscheme]. *)
Inductive qscheme_t : Type :=
| per_tensor_affine
| per_tensor_symmetric
| per_channel_affine
| per_channel_symmetric.

(** The exceptions the module can raise, and a computation that returns or
    raises. *)
Inductive py_error : Type := AssertionError | AttributeError | RuntimeError.

Inductive result (A : Type) : Type :=
| Ok (a : A)
| Raise (e : py_error).

Arguments Ok {A} a.
Arguments Raise {A} e.

(** What the module reads from the observer it is built on:
    [torch.iinfo(observer.dtype).min] and [.max], [observer.qscheme] and
    [observer.ch_axis] when the observer has one. *)
Record observer_t : Type := mkObserver {
  dtype_min : Z;
  dtype_max : Z;
  observer_qscheme : qscheme_t;
  observer_ch_axis : option Z
}.

(** The axis a Python index denotes in a tensor of [n] axes: a negative
    index counts from the end. *)
Definition py_axis (a : Z) (n : nat) : nat :=
  Z.to_nat (if (a <? 0)%Z then (a + Z.of_nat n)%Z else a).

(** Whether a tensor of shape [m] can be copied into one of shape [s]
    (reversed shapes, as for [bshape_r]). *)
Fixpoint expandable_r (s m : list nat) : bool :=
  match m, s with
  | [], _ => true
  | _ :: _, [] => false
  | b :: m', a :: s' => ((b =? 1) || (b =? a)) && expandable_r s' m'
  end.

(** [dst.data.copy_(src)]: the elements of [src], broadcast to the shape of
    [dst]; raises when the shapes do not allow it. *)
Definition copy_ (dst src : tensor Q) : result (tensor Q) :=
  if expandable_r (rev (shape dst)) (rev (shape src))
  then Ok (mkTensor (shape dst) (fun idx => get src (bidx (shape src) idx)))
  else Raise RuntimeError.

Module _LearnableFakeQuantize.

(** The attributes of the module.  The three flags are the one-element
    [uint8] buffers; [bitwidth], a floating-point logarithm that no method
    reads, is left out. *)
Record t : Type := mk {
  quant_min : Z;
  quant_max : Z;
  use_grad_scaling : bool;
  scale : tensor Q;
  scale_requires_grad : bool;
  zero_point : tensor Q;
  zero_point_requires_grad : bool;
  activation_post_process : observer_t;
  qscheme : qscheme_t;
  ch_axis : Z;
  fake_quant_enabled : Z;
  static_enabled : Z;
  learning_enabled : Z
}.

(** [__init__(observer, quant_min, quant_max, scale, zero_point,
    channel_len, use_grad_scaling)]; a new [Parameter] requires grad. *)
Definition __init__ (observer : observer_t) (quant_min quant_max : Z)
           (scale zero_point : Q) (channel_len : Z) (use_grad_scaling : bool)
  : result t :=
  if negb (quant_min <? quant_max)%Z then Raise AssertionError else
  if negb ((channel_len =? -1)%Z || (0 <? channel_len)%Z)
  then Raise AssertionError else
  let len := if (channel_len =? -1)%Z then 1 else Z.to_nat channel_len in
  if negb (dtype_min observer <=? quant_min)%Z then Raise AssertionError else
  if negb (quant_max <=? dtype_max observer)%Z then Raise AssertionError else
  Ok (mk quant_min quant_max use_grad_scaling
         (of_list (repeat scale len)) true
         (of_list (repeat zero_point len)) true
         observer (observer_qscheme observer)
         (match observer_ch_axis observer with
          | Some a => a
          | None => (-1)%Z
          end)
         1%Z 1%Z 0%Z).

Definition toggle_observer_update (self : t) (enabled : bool) : t :=
  mk (quant_min self) (quant_max self) (use_grad_scaling self)
     (scale self) (scale_requires_grad self)
     (zero_point self) (zero_point_requires_grad self)
     (activation_post_process self) (qscheme self) (ch_axis self)
     (fake_quant_enabled self) (Z.b2z enabled) (learning_enabled self).

Definition toggle_qparam_learning (self : t) (enabled : bool) : t :=
  mk (quant_min self) (quant_max self) (use_grad_scaling self)
     (scale self) enabled
     (zero_point self) enabled
     (activation_post_process self) (qscheme self) (ch_axis self)
     (fake_quant_enabled self) (static_enabled self) (Z.b2z enabled).

Definition toggle_fake_quant (self : t) (enabled : bool) : t :=
  mk (quant_min self) (quant_max self) (use_grad_scaling self)
     (scale self) (scale_requires_grad self)
     (zero_point self) (zero_point_requires_grad self)
     (activation_post_process self) (qscheme self) (ch_axis self)
     (Z.b2z enabled) (static_enabled self) (learning_enabled self).

(** The three modes; each is the module after the call (the first returns
    [self], the other two return nothing). *)
Definition enable_param_learning (self : t) : t :=
  toggle_observer_update
    (toggle_fake_quant (toggle_qparam_learning self true) true) false.

Definition enable_static_estimate (self : t) : t :=
  toggle_observer_update
    (toggle_fake_quant (toggle_qparam_learning self false) true) true.

Definition enable_static_observation (self : t) : t :=
  toggle_observer_update
    (toggle_fake_quant (toggle_qparam_learning self false) false) true.

Definition set_qparams (self : t) (new_scale new_zero_point : tensor Q) : t :=
  mk (quant_min self) (quant_max self) (use_grad_scaling self)
     new_scale (scale_requires_grad self)
     new_zero_point (zero_point_requires_grad self)
     (activation_post_process self) (qscheme self) (ch_axis self)
     (fake_quant_enabled self) (static_enabled self) (learning_enabled self).

Definition is_per_channel (q : qscheme_t) : bool :=
  match q with
  | per_channel_symmetric | per_channel_affine => true
  | _ => false
  end.

(** [forward(X)].  The observer is another component: [qparams] is the
    pair [(_scale, _zero_point)] that [calculate_qparams()] returns after
    the observer has seen [X].  The result is the module after the call and
    the returned tensor.  [self.zero_point.clamp(...)] builds a tensor that
    is dropped; [self.weight] is an attribute the class never sets, so
    reading it raises. *)
Definition forward (self : t) (qparams : tensor Q * tensor Q) (X : tensor Q)
  : result (t * tensor Q) :=
  let '(_scale, _zero_point) := qparams in
  let updated :=
    if (static_enabled self =? 1)%Z then
      match copy_ (scale self) _scale with
      | Raise e => Raise e
      | Ok new_scale =>
        match copy_ (zero_point self) _zero_point with
        | Raise e => Raise e
        | Ok new_zero_point => Ok (set_qparams self new_scale new_zero_point)
        end
      end
    else Ok self in
  match updated with
  | Raise e => Raise e
  | Ok self =>
    if (fake_quant_enabled self =? 1)%Z then
      if (learning_enabled self =? 1)%Z then
        if use_grad_scaling self then Raise AttributeError
        else
          let scale_factor := 1%Q in
          if is_per_channel (qscheme self) then
            Ok (self,
                snd (_LearnableFakeQuantizePerChannelOp.forward
                       X (scale self) (zero_point self)
                       (py_axis (ch_axis self) (ndim X))
                       (quant_min self) (quant_max self) scale_factor))
          else
            Ok (self,
                snd (_LearnableFakeQuantizePerTensorOp.forward
                       X (scale self) (zero_point self)
                       (quant_min self) (quant_max self) scale_factor))
      else
        if is_per_channel (qscheme self) then
          Ok (self,
              fake_quantize_per_channel_affine
                X (scale self) (zero_point self)
                (py_axis (ch_axis self) (ndim X))
                (quant_min self) (quant_max self))
        else
          Ok (self,
              fake_quantize_per_tensor_affine
                X (item (scale self)) (Qtrunc (item (zero_point self)))
                (quant_min self) (quant_max self))
    else Ok (self, X)
  end.

End _LearnableFakeQuantize.

Module LFQ := _LearnableFakeQuantize.

(** The modules that exist at run time: built by [__init__] and then
    changed by the toggles (the three [enable_...] methods are chains of
    toggles) and by successful calls of [forward]. *)
Inductive reachable : LFQ.t -> Prop :=
| reach_init : forall observer quant_min quant_max scale zero_point
                      channel_len use_grad_scaling self,
    LFQ.__init__ observer quant_min quant_max scale zero_point channel_len
                 use_grad_scaling = Ok self ->
    reachable self
| reach_toggle_observer_update : forall self enabled,
    reachable self -> reachable (LFQ.toggle_observer_update self enabled)
| reach_toggle_qparam_learning : forall self enabled,
    reachable self -> reachable (LFQ.toggle_qparam_learning self enabled)
| reach_toggle_fake_quant : forall self enabled,
    reachable self -> reachable (LFQ.toggle_fake_quant self enabled)
| reach_forward : forall self qparams X self' Y,
    reachable self -> LFQ.forward self qparams X = Ok (self', Y) ->
    reachable self'.

(** The default module: [quint8] observer, per tensor, range 0..255. *)
Definition scenario_observer : observer_t :=
  mkObserver 0 255 per_tensor_affine None.

Definition scenario_module : LFQ.t :=
  LFQ.mk 0 255 false (of_list [1%Q]) true (of_list [0%Q]) true
         scenario_observer per_tensor_affine (-1) 1 1 0.

(* ================================================================== *)
(** ** Test generation: [torch/testing/_internal/distributed/rpc_utils.py] *)

(** A class object, as far as [generate_tests] looks at it: its name, the
    module it claims to belong to and its bases.  Class creation is
    modelled where it succeeds: [type(name, bases, dict())] raises when the
    bases have no consistent method resolution order, which depends on the
    ancestors of the classes passed in. *)
#[warnings="-register-all"]
Inductive py_class : Type :=
| Class (name module_ : string) (bases : list py_class).

Definition __name__ (c : py_class) : string :=
  match c with Class n _ _ => n end.

Definition __module__ (c : py_class) : string :=
  match c with Class _ m _ => m end.

Definition __bases__ (c : py_class) : list py_class :=
  match c with Class _ _ b => b end.

Definition rpc_utils : string :=
  "torch.testing._internal.distributed.rpc_utils"%string.

(** The imported bases of [RpcMultiProcessTestCase]; their own bases are not
    followed. *)
Definition MultiProcessTestCase : py_class :=
  Class "MultiProcessTestCase"
        "torch.testing._internal.common_distributed" [].

Definition RpcAgentTestFixture : py_class :=
  Class "RpcAgentTestFixture"
        "torch.testing._internal.distributed.rpc.rpc_agent_test_fixture" [].

Definition RpcMultiProcessTestCase : py_class :=
  Class "RpcMultiProcessTestCase" rpc_utils
        [MultiProcessTestCase; RpcAgentTestFixture].

Definition ForkHelper : py_class :=
  Class "ForkHelper" rpc_utils [RpcMultiProcessTestCase].

Definition SpawnHelper : py_class :=
  Class "SpawnHelper" rpc_utils [RpcMultiProcessTestCase].

(** [class MultiProcess(Flag)]: the members, in the order of definition,
    which is the order of iteration.  A flag value ([mp_type_filter]) is any
    combination of the members' bits, 0 included. *)
Inductive MultiProcess : Type := FORK | SPAWN.

Definition value (m : MultiProcess) : N :=
  match m with FORK => 1 | SPAWN => 2 end.

Definition MultiProcess_members : list MultiProcess := [FORK; SPAWN].

(** [mp_type & mp_type_filter], taken as a condition: a flag is true when
    its value is not 0. *)
Definition flag_and (m : MultiProcess) (mp_type_filter : N) : bool :=
  negb (N.land (value m) mp_type_filter =? 0)%N.

Definition MP_HELPERS_AND_SUFFIXES (m : MultiProcess) : py_class * string :=
  match m with
  | FORK => (ForkHelper, "WithFork"%string)
  | SPAWN => (SpawnHelper, "WithSpawn"%string)
  end.

(** A [dict] with string keys, in insertion order: assigning to a key that
    is present replaces the value in place, a new key goes to the end. *)
Definition dict (V : Type) : Type := list (string * V).

Fixpoint dict_set (V : Type) (d : dict V) (k : string) (v : V) : dict V :=
  match d with
  | [] => [(k, v)]
  | (k', v') :: d' =>
      if String.eqb k' k then (k, v) :: d' else (k', v') :: dict_set d' k v
  end.

Definition keys (V : Type) (d : dict V) : list string := map fst d.

Definition generate_tests (prefix : string) (mixin : py_class)
           (tests : list py_class) (mp_type_filter : N)
           (module_name : string) : dict py_class :=
  fold_left
    (fun ret test_class =>
       fold_left
         (fun ret mp_type =>
            if flag_and mp_type mp_type_filter then
              let '(mp_helper, suffix) := MP_HELPERS_AND_SUFFIXES mp_type in
              let name := (prefix ++ __name__ test_class ++ suffix)%string in
              (* type(name, (test_class, mixin, mp_helper), dict()), then
                 class_.__module__ = module_name *)
              let class_ :=
                Class name module_name [test_class; mixin; mp_helper] in
              dict_set ret name class_
            else ret)
         MultiProcess_members ret)
    tests [].

(** *** Vocabulary *)

(** The start methods a filter lets through, in the order of iteration. *)
Definition selected (mp_type_filter : N) : list MultiProcess :=
  filter (fun m => flag_and m mp_type_filter) MultiProcess_members.

(** The name and the class asked for by one test suite and one start
    method. *)
Definition generated_name (prefix : string) (test_class : py_class)
           (m : MultiProcess) : string :=
  (prefix ++ __name__ test_class ++ snd (MP_HELPERS_AND_SUFFIXES m))%string.

Definition generated_class (prefix : string) (mixin test_class : py_class)
           (m : MultiProcess) (module_name : string) : py_class :=
  Class (generated_name prefix test_class m) module_name
        [test_class; mixin; fst (MP_HELPERS_AND_SUFFIXES m)].

(** Every combination of a test suite and a selected start method, suites
    first. *)
Definition combinations (prefix : string) (mixin : py_class)
           (tests : list py_class) (mp_type_filter : N)
           (module_name : string) : dict py_class :=
  flat_map
    (fun t => map (fun m => (generated_name prefix t m,
                             generated_class prefix mixin t m module_name))
                  (selected mp_type_filter))
    tests.

(* ================================================================== *)
(** ** Vocabulary of the statements *)
(* ================================================================== *)

(** [idx] is a multi-index of a tensor of shape [s]. *)
Definition inb (s idx : list nat) : Prop := Forall2 lt idx s.

(** A shape [m] that broadcasts into [s] without changing it (reversed
    shapes, as for [bshape_r]). *)
Inductive fits_r : list nat -> list nat -> Prop :=
| fits_r_nil : forall s, fits_r s []
| fits_r_cons : forall a b s m,
    b = 1 \/ b = a -> fits_r s m -> fits_r (a :: s) (b :: m).

Definition fits (s m : list nat) : Prop := fits_r (rev s) (rev m).

(** [T] is an operand of an elementwise computation of shape [s], and the
    element it contributes at the index [idx] of the result is [v idx]. *)
Definition bc {A} (s : list nat) (T : tensor A) (v : list nat -> A) : Prop :=
  fits s (shape T) /\
  forall idx, inb s idx -> get T (bidx (shape T) idx) = v idx.

(** Equality of tensors: same shape, same elements. *)
Definition tensor_eq {A} (T U : tensor A) : Prop :=
  shape T = shape U /\ forall idx, inb (shape T) idx -> get T idx = get U idx.

(** The integer zero-point both kernels use:
    [int((zero_point + 0.5).clamp(q_min, q_max))]. *)
Definition effective_zero_point (zero_point : Q) (q_min q_max : Z) : Z :=
  Qtrunc (Qclamp (zero_point + (1 # 2)) q_min q_max).

(** The unclamped code of one element, [round(x * (1.0 / scale) + zp)]. *)
Definition code (x scale zp : Q) : Q := Qround (x * (1 / scale) + zp).

(** [r] is an integer nearest to [x]. *)
Definition nearest_integer (x : Q) (r : Z) : Prop :=
  (Qabs (inject_Z r - x) <= 1 # 2)%Q.

Definition Zclamp (z lo hi : Z) : Z := Z.min (Z.max z lo) hi.

(** The transposition of the axes 0 and [k], and where [permute] with the
    [new_axis_list] of [_permute_to_axis_zero] reads its argument. *)
Definition swap_axis (k a : nat) : nat :=
  if a =? 0 then k else if a =? k then 0 else a.

Definition swap_index (n k : nat) (idx : list nat) : list nat :=
  map (fun a => nth (swap_axis k a) idx 0) (seq 0 n).

(** [T] has shape [s] and its element at [idx] is [v idx]. *)
Definition full {A} (s : list nat) (T : tensor A) (v : list nat -> A) : Prop :=
  shape T = s /\ forall idx, inb s idx -> get T idx = v idx.

(** A parameter that stands for one number whatever the shape [s] of the
    tensor it is combined with: a zero-dimensional tensor, or a tensor of
    shape [[1]], [[1; 1]], ... with no more axes than [s]. *)
Definition scalar_like {A} (s : list nat) (T : tensor A) : Prop :=
  exists n, shape T = repeat 1 n /\ n <= length s.

(** The computation of one element in the vectorised helpers: what
    [_calculate_X_grad_per_tensor], [_calculate_scale_grad] and
    [_calculate_zero_point_grad] do at one index, and the native
    fake-quantize formula. *)
Definition ind (b : bool) : Q := if b then 1%Q else 0%Q.

Definition X_grad_elem (dy xq : Q) (q_min q_max : Z) : Q :=
  if Qle_bool (inject_Z q_min) xq && Qle_bool xq (inject_Z q_max)
  then dy else 0%Q.

Definition scale_grad_elem (grad_x x x_fq x_q scale zp : Q) (q_min q_max : Z)
  : Q :=
  ((ind (Qeq_bool x_q (inject_Z q_min)) * (inject_Z q_min - zp)
    + ind (Qeq_bool x_q (inject_Z q_max)) * (inject_Z q_max - zp)
    + (1 - ind (Qeq_bool x_q (inject_Z q_min))
       - ind (Qeq_bool x_q (inject_Z q_max))) * ((x_fq - x) / scale))
   * grad_x)%Q.

Definition zero_point_grad_elem (grad_x x_q scale : Q) (q_min q_max : Z) : Q :=
  (((ind (Qeq_bool x_q (inject_Z q_min)) + ind (Qeq_bool x_q (inject_Z q_max)))
    * - scale
    + (1 - (ind (Qeq_bool x_q (inject_Z q_min))
            + ind (Qeq_bool x_q (inject_Z q_max)))) * inject_Z 0)
   * grad_x)%Q.

Definition fake_quantize_elem (x scale zp : Q) (q_min q_max : Z) : Q :=
  ((Qclamp (Qround (x / scale + zp)) q_min q_max - zp) * scale)%Q.

(** The local contributions to the gradients as the specification words
    them: a case distinction on the clamped code [x_q]. *)
Definition spec_scale_regime (x_q x x_fq scale zp : Q) (q_min q_max : Z) : Q :=
  if Qeq_bool x_q (inject_Z q_min) then (inject_Z q_min - zp)%Q
  else if Qeq_bool x_q (inject_Z q_max) then (inject_Z q_max - zp)%Q
  else ((x_fq - x) / scale)%Q.

Definition spec_zero_point_regime (x_q scale : Q) (q_min q_max : Z) : Q :=
  if Qeq_bool x_q (inject_Z q_min) || Qeq_bool x_q (inject_Z q_max)
  then (- scale)%Q else 0%Q.

(** Inputs of the scenarios. *)
Definition scenario_X : tensor Q := of_list [0%Q; 2 # 5; 3 # 5; 1%Q].
Definition scenario_scale : tensor Q := of_list [1 # 2].
Definition scenario_zero_point : tensor Q := of_list [0%Q].
Definition scenario_dY : tensor Q := of_list [1%Q; 1%Q; 1%Q; 1%Q].

(** A tensor of shape (2, 3) with a scale and a zero-point per row. *)
Definition scenario_X2 : tensor Q :=
  mkTensor [2; 3]
           (fun idx => nth (ravel [2; 3] idx)
                           [0%Q; 2 # 5; 3 # 5; 1%Q; 7 # 5; (-1) # 3] 0%Q).
Definition scenario_scale2 : tensor Q := of_list [1 # 2; 1 # 3].
Definition scenario_zero_point2 : tensor Q := of_list [0%Q; 6 # 5].
Definition scenario_dY2 : tensor Q := ones [2; 3].

(* ================================================================== *)
(** ** Scalar numerics: lemmas *)
(* ================================================================== *)

Local Open Scope Q_scope.

Lemma round_half_even_comp (x y : Q) :
  x == y -> round_half_even x = round_half_even y.
Proof.
  intros H. unfold round_half_even. cbv zeta.
  rewrite (Qfloor_comp _ _ H).
  assert (E : Qcompare (x - inject_Z (Qfloor y)) (1 # 2)
              = Qcompare (y - inject_Z (Qfloor y)) (1 # 2)).
  { apply Qcompare_comp; [rewrite H; reflexivity | reflexivity]. }
  rewrite E. reflexivity.
Qed.

Lemma Qround_comp (x y : Q) : x == y -> Qround x = Qround y.
Proof. intros H. unfold Qround. now rewrite (round_half_even_comp H). Qed.

Lemma round_half_even_Z (z : Z) : round_half_even (inject_Z z) = z.
Proof.
  unfold round_half_even. cbv zeta. rewrite Qfloor_Z.
  assert (E : Qcompare (inject_Z z - inject_Z z) (1 # 2) = Lt).
  { apply Qlt_alt. setoid_replace (inject_Z z - inject_Z z) with 0 by ring.
    reflexivity. }
  now rewrite E.
Qed.

Lemma Qround_Z (z : Z) : Qround (inject_Z z) = inject_Z z.
Proof. unfold Qround. now rewrite round_half_even_Z. Qed.

Lemma Qmax_r_eq (x y : Q) : y <= x -> Qmax x y = x.
Proof.
  intros H. unfold Qmax, GenericMinMax.gmax.
  destruct (Qcompare x y) eqn:E; try reflexivity.
  apply Qlt_alt in E. exfalso. apply (Qlt_not_le _ _ E H).
Qed.

Lemma Qmax_l_eq (x y : Q) : x < y -> Qmax x y = y.
Proof.
  intros H. unfold Qmax, GenericMinMax.gmax.
  destruct (Qcompare x y) eqn:E; try reflexivity.
  - apply Qeq_alt in E. exfalso. rewrite E in H. apply (Qlt_irrefl _ H).
  - apply Qgt_alt in E. exfalso. apply (Qlt_irrefl x). now apply Qlt_trans with y.
Qed.

Lemma Qmin_l_eq (x y : Q) : x <= y -> Qmin x y = x.
Proof.
  intros H. unfold Qmin, GenericMinMax.gmin.
  destruct (Qcompare x y) eqn:E; try reflexivity.
  apply Qgt_alt in E. exfalso. apply (Qlt_not_le _ _ E H).
Qed.

Lemma Qmin_r_eq (x y : Q) : y < x -> Qmin x y = y.
Proof.
  intros H. unfold Qmin, GenericMinMax.gmin.
  destruct (Qcompare x y) eqn:E; try reflexivity.
  - apply Qeq_alt in E. exfalso. rewrite E in H. apply (Qlt_irrefl _ H).
  - apply Qlt_alt in E. exfalso. apply (Qlt_irrefl x). now apply Qlt_trans with y.
Qed.

(** The three cases of a clamp. *)
Lemma Qclamp_in (x : Q) (lo hi : Z) :
  inject_Z lo <= x -> x <= inject_Z hi -> Qclamp x lo hi = x.
Proof.
  intros H1 H2. unfold Qclamp. rewrite Qmax_r_eq by assumption.
  now apply Qmin_l_eq.
Qed.

Lemma Qclamp_above (x : Q) (lo hi : Z) :
  inject_Z hi < x -> (lo <= hi)%Z -> Qclamp x lo hi = inject_Z hi.
Proof.
  intros H1 H2. unfold Qclamp.
  assert (inject_Z lo <= inject_Z hi) by (now rewrite <- Zle_Qle).
  rewrite Qmax_r_eq by lra. apply Qmin_r_eq. assumption.
Qed.

Lemma Qclamp_below (x : Q) (lo hi : Z) :
  x < inject_Z lo -> (lo <= hi)%Z -> Qclamp x lo hi = inject_Z lo.
Proof.
  intros H1 H2. unfold Qclamp.
  assert (inject_Z lo <= inject_Z hi) by (now rewrite <- Zle_Qle).
  rewrite Qmax_l_eq by assumption. now apply Qmin_l_eq.
Qed.

Lemma Qclamp_bounds (x : Q) (lo hi : Z) :
  (lo <= hi)%Z -> inject_Z lo <= Qclamp x lo hi <= inject_Z hi.
Proof.
  intros H. assert (inject_Z lo <= inject_Z hi) by (now rewrite <- Zle_Qle).
  destruct (Qlt_le_dec x (inject_Z lo)) as [L|L].
  - rewrite Qclamp_below by assumption. lra.
  - destruct (Qlt_le_dec (inject_Z hi) x) as [U|U].
    + rewrite Qclamp_above by assumption. lra.
    + rewrite Qclamp_in by assumption. lra.
Qed.

Lemma Qtrunc_nonneg (x : Q) : 0 <= x -> Qtrunc x = Qfloor x.
Proof.
  destruct x as [n d]. unfold Qle, Qtrunc, Qfloor. simpl. intros H.
  apply Z.quot_div_nonneg; lia.
Qed.

Lemma Qtrunc_Z (z : Z) : Qtrunc (inject_Z z) = z.
Proof. unfold Qtrunc. simpl. apply Z.quot_1_r. Qed.

Lemma Qeq_bool_inject_Z (a b : Z) :
  Qeq_bool (inject_Z a) (inject_Z b) = (a =? b)%Z.
Proof.
  unfold Qeq_bool. simpl. now rewrite !Z.mul_1_r.
Qed.

Local Open Scope nat_scope.
Local Open Scope tensor_scope.

(* ================================================================== *)
(** ** Multi-indices and broadcasting: lemmas *)
(* ================================================================== *)

Lemma In_indices (s idx : list nat) : In idx (indices s) <-> inb s idx.
Proof.
  unfold inb. revert idx. induction s as [|n s IH]; intros idx; simpl.
  - split.
    + intros [<-|[]]. constructor.
    + intros H. inversion H. now left.
  - rewrite in_flat_map. split.
    + intros (i & Hi & Hin). apply in_seq in Hi.
      apply in_map_iff in Hin. destruct Hin as (r & <- & Hr).
      constructor; [lia | now apply IH].
    + intros H. inversion H as [|i n' r s' Hlt Hr]; subst.
      exists i. split; [apply in_seq; lia|].
      apply in_map. now apply IH.
Qed.

Lemma inb_length (s idx : list nat) : inb s idx -> length idx = length s.
Proof. apply Forall2_length. Qed.

Lemma Forall2_rev {A B} (R : A -> B -> Prop) (l : list A) (m : list B) :
  Forall2 R l m -> Forall2 R (rev l) (rev m).
Proof.
  induction 1; simpl; [constructor|].
  apply Forall2_app; [assumption | now constructor].
Qed.

Lemma bshape_r_nil_r (m : list nat) : bshape_r m [] = m.
Proof. now destruct m. Qed.

Lemma bidx_r_bshape_l (m1 m2 idx : list nat) :
  bidx_r m1 (bidx_r (bshape_r m1 m2) idx) = bidx_r m1 idx.
Proof.
  revert m2 idx. induction m1 as [|d1 m1 IH]; intros m2 idx; [reflexivity|].
  destruct idx as [|i idx]; [now destruct m2|].
  destruct m2 as [|d2 m2]; simpl.
  - destruct (d1 =? 1) eqn:E; simpl; rewrite ?E; f_equal;
      rewrite <- (IH [] idx) at 2; now rewrite bshape_r_nil_r.
  - destruct (d1 =? 1) eqn:E; simpl; rewrite ?E.
    + destruct (d2 =? 1); simpl; f_equal; apply IH.
    + f_equal. apply IH.
Qed.

Lemma bidx_r_bshape_r (m1 m2 idx : list nat) :
  bidx_r m2 (bidx_r (bshape_r m1 m2) idx) = bidx_r m2 idx.
Proof.
  revert m1 idx. induction m2 as [|d2 m2 IH]; intros m1 idx.
  - now destruct (bidx_r (bshape_r m1 []) idx).
  - destruct idx as [|i idx]; [now destruct (bshape_r m1 (d2 :: m2))|].
    destruct m1 as [|d1 m1]; simpl.
    + destruct (d2 =? 1) eqn:E; simpl; rewrite ?E; f_equal; apply (IH [] idx).
    + destruct (d1 =? 1) eqn:E1; destruct (d2 =? 1) eqn:E2; simpl;
        rewrite ?E1, ?E2; simpl; f_equal; apply IH.
Qed.

Lemma bidx_r_same (s idx : list nat) :
  Forall2 lt idx s -> bidx_r s idx = idx.
Proof.
  induction 1 as [|i d idx s Hlt _ IH]; [reflexivity|]. simpl.
  rewrite IH. destruct (d =? 1) eqn:E; [|reflexivity].
  apply Nat.eqb_eq in E. f_equal. lia.
Qed.

Lemma bidx_r_inb (s m idx : list nat) :
  fits_r s m -> Forall2 lt idx s -> Forall2 lt (bidx_r m idx) m.
Proof.
  intros F. revert idx. induction F as [s|a b s m Hb F IH]; intros idx H.
  - constructor.
  - inversion H as [|i a' r s' Hlt Hr]; subst. simpl.
    constructor; [|now apply IH].
    destruct (b =? 1) eqn:E; [apply Nat.eqb_eq in E; lia|].
    apply Nat.eqb_neq in E. destruct Hb; subst; [contradiction | assumption].
Qed.

Lemma bshape_r_fits_l (s m : list nat) : fits_r s m -> bshape_r s m = s.
Proof.
  induction 1 as [s|a b s m Hb F IH]; [now destruct s|]. simpl. rewrite IH.
  destruct (a =? 1) eqn:E; [|reflexivity].
  apply Nat.eqb_eq in E. f_equal. destruct Hb; subst; reflexivity.
Qed.

Lemma bshape_r_fits_r (s m : list nat) : fits_r s m -> bshape_r m s = s.
Proof.
  induction 1 as [s|a b s m Hb F IH]; [reflexivity|]. simpl. rewrite IH.
  destruct (b =? 1) eqn:E; [reflexivity|].
  apply Nat.eqb_neq in E. f_equal. destruct Hb; subst; [contradiction | reflexivity].
Qed.

Lemma fits_r_refl (s : list nat) : fits_r s s.
Proof. induction s; constructor; auto. Qed.

Lemma fits_r_bshape (s m1 m2 : list nat) :
  fits_r s m1 -> fits_r s m2 -> fits_r s (bshape_r m1 m2).
Proof.
  intros F1. revert m2. induction F1 as [s|a b s m1 Hb F1 IH]; intros m2 F2.
  - exact F2.
  - inversion F2 as [|a' b2 s' m2' Hb2 F2']; subst; simpl.
    + now constructor.
    + constructor; [|now apply IH].
      destruct (b =? 1) eqn:E; [assumption|].
      apply Nat.eqb_neq in E. destruct Hb; subst; [contradiction | now right].
Qed.

Lemma fits_r_ones (s : list nat) (n : nat) :
  n <= length s -> fits_r s (repeat 1 n).
Proof.
  revert n. induction s as [|a s IH]; intros [|n] H; simpl in *;
    try constructor; try lia; auto. apply IH. lia.
Qed.

(** The same facts for shapes in their usual order. *)

Lemma inb_rev (s idx : list nat) : inb s idx -> Forall2 lt (rev idx) (rev s).
Proof. apply Forall2_rev. Qed.

Lemma bidx_bshape_l (m1 m2 idx : list nat) :
  bidx m1 (bidx (bshape m1 m2) idx) = bidx m1 idx.
Proof.
  unfold bidx, bshape. rewrite !rev_involutive. now rewrite bidx_r_bshape_l.
Qed.

Lemma bidx_bshape_r (m1 m2 idx : list nat) :
  bidx m2 (bidx (bshape m1 m2) idx) = bidx m2 idx.
Proof.
  unfold bidx, bshape. rewrite !rev_involutive. now rewrite bidx_r_bshape_r.
Qed.

Lemma bidx_same (s idx : list nat) : inb s idx -> bidx s idx = idx.
Proof.
  intros H. unfold bidx. rewrite bidx_r_same by now apply inb_rev.
  apply rev_involutive.
Qed.

Lemma bidx_inb (s m idx : list nat) :
  fits s m -> inb s idx -> inb m (bidx m idx).
Proof.
  intros F H. unfold inb, bidx.
  rewrite <- (rev_involutive m) at 2. apply Forall2_rev.
  eapply bidx_r_inb; [exact F | now apply inb_rev].
Qed.

Lemma bidx_nil (idx : list nat) : bidx [] idx = [].
Proof. reflexivity. Qed.

Lemma bshape_fits_l (s m : list nat) : fits s m -> bshape s m = s.
Proof.
  intros F. unfold bshape. rewrite bshape_r_fits_l by exact F.
  apply rev_involutive.
Qed.

Lemma bshape_fits_r (s m : list nat) : fits s m -> bshape m s = s.
Proof.
  intros F. unfold bshape. rewrite bshape_r_fits_r by exact F.
  apply rev_involutive.
Qed.

Lemma fits_refl (s : list nat) : fits s s.
Proof. apply fits_r_refl. Qed.

Lemma fits_nil (s : list nat) : fits s [].
Proof. constructor. Qed.

Lemma fits_bshape (s m1 m2 : list nat) :
  fits s m1 -> fits s m2 -> fits s (bshape m1 m2).
Proof.
  intros F1 F2. unfold fits, bshape. rewrite rev_involutive.
  now apply fits_r_bshape.
Qed.

Lemma rev_repeat {A} (x : A) (n : nat) : rev (repeat x n) = repeat x n.
Proof.
  induction n as [|n IH]; [reflexivity|]. simpl. rewrite IH.
  change [x] with (repeat x 1). rewrite <- repeat_app.
  now replace (n + 1) with (S n) by lia.
Qed.

Lemma fits_ones (s : list nat) (n : nat) :
  n <= length s -> fits s (repeat 1 n).
Proof.
  intros H. unfold fits. rewrite rev_repeat. apply fits_r_ones.
  now rewrite length_rev.
Qed.

(* ================================================================== *)
(** ** Elementwise operations: what they compute at an index *)
(* ================================================================== *)

Section Elementwise.
Context {A B C : Type}.
Variable s : list nat.

Lemma full_intro (T : tensor A) : shape T = s -> full s T (get T).
Proof. intros H. split; [assumption | reflexivity]. Qed.

Lemma full_bc (T : tensor A) v : full s T v -> bc s T v.
Proof.
  intros [Hs Hv]. split.
  - rewrite Hs. apply fits_refl.
  - intros idx Hi. rewrite Hs, (bidx_same Hi). now apply Hv.
Qed.

Lemma full_ext (T : tensor A) v w :
  full s T v -> (forall idx, inb s idx -> v idx = w idx) -> full s T w.
Proof.
  intros [Hs Hv] E. split; [assumption|].
  intros idx Hi. rewrite Hv by assumption. now apply E.
Qed.

Lemma bc_ext (T : tensor A) v w :
  bc s T v -> (forall idx, inb s idx -> v idx = w idx) -> bc s T w.
Proof.
  intros [Hs Hv] E. split; [assumption|].
  intros idx Hi. rewrite Hv by assumption. now apply E.
Qed.

Lemma bc_scalar (x : A) : bc s (scalar x) (fun _ => x).
Proof. split; [apply fits_nil | reflexivity]. Qed.

Lemma bc_tmap (f : A -> B) (T : tensor A) v :
  bc s T v -> bc s (tmap f T) (fun idx => f (v idx)).
Proof.
  intros [Hs Hv]. split; [assumption|].
  intros idx Hi. simpl. now rewrite Hv.
Qed.

Lemma full_tmap (f : A -> B) (T : tensor A) v :
  full s T v -> full s (tmap f T) (fun idx => f (v idx)).
Proof.
  intros [Hs Hv]. split; [assumption|].
  intros idx Hi. simpl. now rewrite Hv.
Qed.

Lemma bc_tmap2 (f : A -> B -> C) (T : tensor A) (U : tensor B) v w :
  bc s T v -> bc s U w ->
  bc s (tmap2 f T U) (fun idx => f (v idx) (w idx)).
Proof.
  intros [Hs Hv] [Hs' Hw]. split.
  - now apply fits_bshape.
  - intros idx Hi. simpl.
    rewrite bidx_bshape_l, bidx_bshape_r, Hv, Hw by assumption.
    reflexivity.
Qed.

Lemma full_tmap2_l (f : A -> B -> C) (T : tensor A) (U : tensor B) v w :
  full s T v -> bc s U w ->
  full s (tmap2 f T U) (fun idx => f (v idx) (w idx)).
Proof.
  intros [Hs Hv] [Hs' Hw]. split.
  - simpl. rewrite Hs. now apply bshape_fits_l.
  - intros idx Hi. simpl.
    rewrite Hs, (bidx_same Hi), Hv, Hw by assumption. reflexivity.
Qed.

Lemma full_tmap2_r (f : A -> B -> C) (T : tensor A) (U : tensor B) v w :
  bc s T v -> full s U w ->
  full s (tmap2 f T U) (fun idx => f (v idx) (w idx)).
Proof.
  intros [Hs Hv] [Hs' Hw]. split.
  - simpl. rewrite Hs'. now apply bshape_fits_r.
  - intros idx Hi. simpl.
    rewrite Hs', (bidx_same Hi), Hv, Hw by assumption. reflexivity.
Qed.

End Elementwise.

Lemma full_ones (s : list nat) : full s (ones s) (fun _ => 1%Q).
Proof. split; reflexivity. Qed.

Lemma full_zeros_like (s : list nat) (T : tensor Q) :
  shape T = s -> full s (zeros_like T) (fun _ => 0%Q).
Proof. intros H. split; [assumption | reflexivity]. Qed.

Lemma full_masked_copy (s : list nat) res mask src vr vm vs :
  full s res vr -> full s mask vm -> full s src vs ->
  full s (masked_copy res mask src)
       (fun idx => if vm idx then vs idx else vr idx).
Proof.
  intros [Hr Vr] [Hm Vm] [Hs Vs]. split; [assumption|].
  intros idx Hi. simpl. now rewrite Vr, Vm, Vs.
Qed.

Lemma full_shape {A} (s : list nat) (T : tensor A) v : full s T v -> shape T = s.
Proof. now intros [H _]. Qed.

Lemma full_get {A} (s : list nat) (T : tensor A) v idx :
  full s T v -> inb s idx -> get T idx = v idx.
Proof. intros [_ H]. apply H. Qed.

(** Tensors that stand for one number. *)

Lemma bidx_r_ones (n : nat) (idx : list nat) :
  n <= length idx -> bidx_r (repeat 1 n) idx = repeat 0 n.
Proof.
  revert idx. induction n as [|n IH]; intros idx H; [reflexivity|].
  destruct idx as [|i idx]; simpl in *; [lia|]. f_equal. apply IH. lia.
Qed.

Lemma bidx_ones (n : nat) (idx : list nat) :
  n <= length idx -> bidx (repeat 1 n) idx = repeat 0 n.
Proof.
  intros H. unfold bidx. rewrite rev_repeat, bidx_r_ones, rev_repeat.
  - reflexivity.
  - now rewrite length_rev.
Qed.

Lemma scalar_like_bc {A} (s : list nat) (T : tensor A) :
  scalar_like s T -> bc s T (fun _ => item T).
Proof.
  intros (n & Hn & Hle). split.
  - rewrite Hn. now apply fits_ones.
  - intros idx Hi. unfold item, ndim. rewrite Hn, repeat_length.
    rewrite bidx_ones; [reflexivity|].
    rewrite (inb_length Hi). assumption.
Qed.

Lemma scalar_like_scalar {A} (s : list nat) (x : A) : scalar_like s (scalar x).
Proof. exists 0. split; [reflexivity | lia]. Qed.

Lemma item_scalar {A} (x : A) : item (scalar x) = x.
Proof. reflexivity. Qed.

Lemma bidx_r_zeros (s : list nat) :
  bidx_r s (repeat 0 (length s)) = repeat 0 (length s).
Proof.
  induction s as [|d s IH]; [reflexivity|]. simpl. rewrite IH.
  now destruct (d =? 1).
Qed.

Lemma bidx_zeros (s : list nat) :
  bidx s (repeat 0 (length s)) = repeat 0 (length s).
Proof.
  unfold bidx. rewrite rev_repeat. rewrite <- (length_rev s).
  rewrite bidx_r_zeros. rewrite rev_repeat. reflexivity.
Qed.

(** [(zero_point + 0.5).clamp(q_min, q_max).item()]. *)
Lemma item_clamp_add_half (T : tensor Q) (lo hi : Z) :
  item (clamp (T +: py_float (1 # 2)) lo hi)
  = Qclamp (item T + (1 # 2)) lo hi.
Proof.
  unfold item, ndim. simpl.
  rewrite (bshape_fits_l (fits_nil (shape T))).
  now rewrite bidx_zeros.
Qed.

Lemma full_ones_shape (s : list nat) (T : tensor Q) v :
  full s T v -> full s (ones (shape T)) (fun _ => 1%Q).
Proof. intros [H _]. rewrite H. apply full_ones. Qed.

(** Walks down an elementwise tensor expression, one lemma per operation. *)
Ltac solve_bc :=
  first [ eassumption
        | apply bc_scalar
        | eapply bc_tmap2; [solve_bc | solve_bc]
        | eapply bc_tmap; solve_bc
        | eapply full_bc; solve_full ]
with solve_full :=
  first [ eassumption
        | eapply full_tmap2_l; [solve_full | solve_bc]
        | eapply full_tmap2_r; [solve_bc | solve_full]
        | eapply full_tmap; solve_full
        | eapply full_ones_shape; solve_full
        | eapply full_masked_copy; [solve_full | solve_full | solve_full]
        | eapply full_zeros_like; eapply full_shape; solve_full ].

(* ================================================================== *)
(** ** The reference helpers, element by element *)
(* ================================================================== *)

Section Helpers.
Variable s : list nat.
Variables (q_min q_max : Z).

Lemma quantize_full (x scale zp : tensor Q) vx vs vz (b : bool) :
  full s x vx -> bc s scale vs -> bc s zp vz ->
  full s (_quantize x scale zp q_min q_max b)
       (fun idx => if b then Qclamp (code (vx idx) (vs idx) (vz idx)) q_min q_max
                   else code (vx idx) (vs idx) (vz idx)).
Proof.
  intros Hx Hs Hz. unfold _quantize, round, clamp, py_float.
  destruct b; (eapply full_ext; [solve_full | reflexivity]).
Qed.

Lemma calculate_X_grad_per_tensor_full (grad_Y X Xq scale zp : tensor Q) vdy vxq :
  full s grad_Y vdy -> full s Xq vxq ->
  full s (_calculate_X_grad_per_tensor grad_Y X Xq scale zp q_min q_max)
       (fun idx => X_grad_elem (vdy idx) (vxq idx) q_min q_max).
Proof.
  intros Hy Hq. unfold _calculate_X_grad_per_tensor, py_int.
  eapply full_ext; [solve_full | reflexivity].
Qed.

Lemma calculate_scale_grad_full
      (grad_X X X_fq X_q scale zp : tensor Q) vg vx vfq vq vs vz :
  full s grad_X vg -> full s X vx -> full s X_fq vfq -> full s X_q vq ->
  bc s scale vs -> bc s zp vz ->
  full s (_calculate_scale_grad grad_X X X_fq X_q scale zp q_min q_max)
       (fun idx => scale_grad_elem (vg idx) (vx idx) (vfq idx) (vq idx)
                                   (vs idx) (vz idx) q_min q_max).
Proof.
  intros Hg Hx Hfq Hq Hs Hz.
  unfold _calculate_scale_grad, indicate_middle_scale, indicate_small_scale,
    indicate_big_scale, float, py_int.
  eapply full_ext; [solve_full | reflexivity].
Qed.

Lemma calculate_zero_point_grad_full
      (grad_X X X_fq X_q scale zp : tensor Q) vg vq vs :
  full s grad_X vg -> full s X_q vq -> bc s scale vs ->
  full s (_calculate_zero_point_grad grad_X X X_fq X_q scale zp q_min q_max)
       (fun idx => zero_point_grad_elem (vg idx) (vq idx) (vs idx) q_min q_max).
Proof.
  intros Hg Hq Hs.
  unfold _calculate_zero_point_grad, indicate_unsaturate_zp,
    indicate_saturate_zp, float, py_int, tneg.
  eapply full_ext; [solve_full | reflexivity].
Qed.

Lemma fake_quantize_per_tensor_affine_full (X : tensor Q) vx scale zp :
  full s X vx ->
  full s (fake_quantize_per_tensor_affine X scale zp q_min q_max)
       (fun idx => fake_quantize_elem (vx idx) scale (inject_Z zp) q_min q_max).
Proof.
  intros Hx. unfold fake_quantize_per_tensor_affine.
  eapply full_ext; [solve_full | reflexivity].
Qed.

End Helpers.

Lemma to_list_full {A} (s : list nat) (T : tensor A) v :
  full s T v -> to_list T = map v (indices s).
Proof.
  intros [Hs Hv]. unfold to_list. rewrite Hs.
  apply map_ext_in. intros idx Hi. apply Hv. now apply In_indices.
Qed.

(** [T.sum().unsqueeze(0)] multiplied by a Python number. *)
Lemma get_sum_times (T : tensor Q) (k : Q) (idx : list nat) :
  get (unsqueeze0 (tsum T) *: py_float k) idx = (Qsum (to_list T) * k)%Q.
Proof. reflexivity. Qed.

(* ================================================================== *)
(** ** The per-tensor kernel, element by element *)
(* ================================================================== *)

Section PerTensor.
Variables (X scale zero_point grad_Y : tensor Q).
Variables (q_min q_max : Z) (grad_factor : Q).

Let s := shape X.
Let zp := effective_zero_point (item zero_point) q_min q_max.
Let c := fst (PT.forward X scale zero_point q_min q_max grad_factor).
Let X_fq := snd (PT.forward X scale zero_point q_min q_max grad_factor).
Let grad_X := fst (fst (PT.backward c grad_Y)).
Let grad_scale := snd (fst (PT.backward c grad_Y)).
Let grad_zp := snd (PT.backward c grad_Y).

(** The elements the kernel computes at one index. *)
Let xq idx := code (get X idx) (item scale) (inject_Z zp).
Let xfq idx := fake_quantize_elem (get X idx) (item scale) (inject_Z zp) q_min q_max.
Let dx idx := X_grad_elem (get grad_Y idx) (xq idx) q_min q_max.

Lemma per_tensor_forward_full : full s X_fq xfq.
Proof.
  subst X_fq xfq zp. unfold PT.forward. cbv zeta. cbn [snd].
  rewrite item_clamp_add_half.
  apply fake_quantize_per_tensor_affine_full. now apply full_intro.
Qed.

Hypothesis Hscale : scalar_like s scale.
Hypothesis HdY : shape grad_Y = s.

Lemma per_tensor_unclamped_code_full :
  full s (_quantize X scale (py_int zp) q_min q_max false) xq.
Proof.
  eapply full_ext.
  - apply quantize_full with (vx := get X);
      [now apply full_intro | now apply scalar_like_bc | apply bc_scalar].
  - reflexivity.
Qed.

Lemma per_tensor_grad_X_full : full s grad_X dx.
Proof.
  subst grad_X c dx. unfold PT.backward, PT.forward.
  cbn [fst snd PT.saved_tensors PT.other]. cbv zeta.
  rewrite item_clamp_add_half.
  fold (effective_zero_point (item zero_point) q_min q_max). fold zp.
  apply calculate_X_grad_per_tensor_full.
  - now apply full_intro.
  - apply per_tensor_unclamped_code_full.
Qed.

Lemma per_tensor_grad_scale :
  shape grad_scale = [1] /\
  forall idx,
    get grad_scale idx
    = (Qsum (map (fun i => scale_grad_elem (dx i) (get X i) (xfq i)
                              (Qclamp (xq i) q_min q_max)
                              (item scale) (inject_Z zp) q_min q_max)
                 (indices s)) * grad_factor)%Q.
Proof.
  split; [reflexivity|]. intros idx.
  subst grad_scale c. unfold PT.backward, PT.forward.
  cbn [fst snd PT.saved_tensors PT.other]. cbv zeta.
  rewrite !item_clamp_add_half, get_sum_times. f_equal. f_equal.
  fold (effective_zero_point (item zero_point) q_min q_max). fold zp.
  apply to_list_full.
  apply calculate_scale_grad_full.
  - apply calculate_X_grad_per_tensor_full;
      [now apply full_intro | apply per_tensor_unclamped_code_full].
  - now apply full_intro.
  - unfold xfq. apply fake_quantize_per_tensor_affine_full.
    now apply full_intro.
  - apply (full_tmap (fun x => Qclamp x q_min q_max)
                     per_tensor_unclamped_code_full).
  - now apply scalar_like_bc.
  - apply bc_scalar.
Qed.

Lemma per_tensor_grad_zp :
  shape grad_zp = [1] /\
  forall idx,
    get grad_zp idx
    = (Qsum (map (fun i => zero_point_grad_elem (dx i)
                              (Qclamp (xq i) q_min q_max)
                              (item scale) q_min q_max)
                 (indices s)) * grad_factor)%Q.
Proof.
  split; [reflexivity|]. intros idx.
  subst grad_zp c. unfold PT.backward, PT.forward.
  cbn [fst snd PT.saved_tensors PT.other]. cbv zeta.
  rewrite !item_clamp_add_half, get_sum_times. f_equal. f_equal.
  fold (effective_zero_point (item zero_point) q_min q_max). fold zp.
  apply to_list_full.
  apply calculate_zero_point_grad_full.
  - apply calculate_X_grad_per_tensor_full;
      [now apply full_intro | apply per_tensor_unclamped_code_full].
  - apply (full_tmap (fun x => Qclamp x q_min q_max)
                     per_tensor_unclamped_code_full).
  - now apply scalar_like_bc.
Qed.

End PerTensor.

(* ================================================================== *)
(** ** Lists, positions and sums: lemmas for the per-channel kernel *)
(* ================================================================== *)

Lemma length_upd {A} (i : nat) (v : A) (l : list A) : length (upd i v l) = length l.
Proof.
  revert i. induction l as [|x l IH]; intros [|i]; simpl; auto.
Qed.

Lemma nth_upd {A} (i j : nat) (v d : A) (l : list A) :
  i < length l ->
  nth j (upd i v l) d = if j =? i then v else nth j l d.
Proof.
  revert i j. induction l as [|x l IH]; intros i j H; simpl in H; [lia|].
  destruct i as [|i]; destruct j as [|j]; simpl; try reflexivity.
  apply IH. lia.
Qed.

Lemma Forall2_nth_lt (l m : list nat) :
  Forall2 lt l m <->
  length l = length m /\ forall j, j < length l -> nth j l 0 < nth j m 0.
Proof.
  split.
  - induction 1 as [|a b l m Hab H IH]; simpl.
    + split; [reflexivity | intros j Hj; lia].
    + destruct IH as [IH1 IH2]. split; [now f_equal|].
      intros [|j] Hj; [assumption | apply IH2; lia].
  - revert m. induction l as [|a l IH]; intros [|b m] [Hl Hn];
      simpl in Hl; try discriminate; constructor.
    + apply (Hn 0). simpl. lia.
    + apply IH. split; [now injection Hl|].
      intros j Hj. apply (Hn (S j)). simpl. lia.
Qed.

Lemma inb_nth (s idx : list nat) (j : nat) :
  inb s idx -> j < length s -> nth j idx 0 < nth j s 0.
Proof.
  intros H Hj. apply Forall2_nth_lt in H. destruct H as [Hl Hn].
  apply Hn. now rewrite Hl.
Qed.

Lemma length_insert_at {A} (k : nat) (c : A) (l : list A) :
  length (insert_at k c l) = S (length l).
Proof.
  unfold insert_at. rewrite length_app. simpl.
  rewrite length_firstn, length_skipn. lia.
Qed.

Lemma nth_insert_at {A} (k : nat) (c d : A) (l : list A) :
  k <= length l -> nth k (insert_at k c l) d = c.
Proof.
  intros H. unfold insert_at.
  rewrite app_nth2; rewrite length_firstn, Nat.min_l by assumption; [|lia].
  now rewrite Nat.sub_diag.
Qed.

Lemma remove_nth_split {A} (k : nat) (l : list A) :
  remove_nth k l = firstn k l ++ skipn (S k) l.
Proof.
  revert k. induction l as [|x l IH]; intros [|k]; simpl; try reflexivity.
  now rewrite IH.
Qed.

Lemma length_remove_nth {A} (k : nat) (l : list A) :
  k < length l -> S (length (remove_nth k l)) = length l.
Proof.
  revert k. induction l as [|x l IH]; intros [|k] H; simpl in *; try lia.
  rewrite IH; lia.
Qed.

(** Inserting a channel index into an index of the slice gives an index of
    the whole tensor. *)
Lemma inb_insert_at (s idx : list nat) (k c : nat) :
  k < length s -> c < nth k s 0 -> inb (remove_nth k s) idx ->
  inb s (insert_at k c idx).
Proof.
  unfold inb, insert_at. revert k idx.
  induction s as [|d s IH]; intros k idx Hk Hc H; simpl in Hk; [lia|].
  destruct k as [|k]; simpl in *.
  - now constructor.
  - inversion H as [|i d' r s' Hlt Hr]; subst. simpl.
    constructor; [assumption|]. apply IH; [lia | assumption | assumption].
Qed.

(** *** Sums *)

Lemma Qsum_app (l1 l2 : list Q) : (Qsum (l1 ++ l2) == Qsum l1 + Qsum l2)%Q.
Proof.
  induction l1 as [|x l1 IH]; simpl.
  - ring.
  - rewrite IH. ring.
Qed.

Lemma Qsum_map_ext {A} (f g : A -> Q) (l : list A) :
  (forall x, In x l -> (f x == g x)%Q) ->
  (Qsum (map f l) == Qsum (map g l))%Q.
Proof.
  induction l as [|x l IH]; intros H; simpl; [reflexivity|].
  rewrite (H x) by now left. rewrite IH; [reflexivity|].
  intros y Hy. apply H. now right.
Qed.

Lemma Qsum_flat_map {A B} (F : B -> Q) (g : A -> list B) (l : list A) :
  (Qsum (map F (flat_map g l)) == Qsum (map (fun a => Qsum (map F (g a))) l))%Q.
Proof.
  induction l as [|a l IH]; simpl; [reflexivity|].
  rewrite map_app, Qsum_app, IH. reflexivity.
Qed.

Lemma Qsum_scale (k : Q) (l : list Q) :
  (Qsum l * k == Qsum (map (fun x => x * k) l))%Q.
Proof.
  induction l as [|x l IH]; simpl; [ring|]. rewrite <- IH. ring.
Qed.

(** *** Row-major enumeration *)

Lemma indices_length_elem (s idx : list nat) :
  In idx (indices s) -> length idx = length s.
Proof. intros H. apply In_indices in H. now apply inb_length. Qed.

Lemma flat_map_map_cons (i : nat) (I1 I2 : list (list nat)) :
  flat_map (fun p => map (app p) I2) (map (cons i) I1)
  = map (cons i) (flat_map (fun p => map (app p) I2) I1).
Proof.
  induction I1 as [|p I1 IH]; simpl; [reflexivity|].
  rewrite IH, map_app, map_map. reflexivity.
Qed.

Lemma indices_app (s1 s2 : list nat) :
  indices (s1 ++ s2)
  = flat_map (fun p => map (app p) (indices s2)) (indices s1).
Proof.
  induction s1 as [|n s1 IH]; simpl.
  - rewrite app_nil_r. now rewrite map_id.
  - rewrite IH. generalize (seq 0 n) as l.
    induction l as [|i l IHl]; simpl; [reflexivity|].
    rewrite flat_map_app, <- IHl, flat_map_map_cons. reflexivity.
Qed.

(* ================================================================== *)
(** ** Reshape *)
(* ================================================================== *)

Lemma nth_flat_map_uniform {A B} (g : A -> list B) (L : nat) (l : list A)
      (i j : nat) (a0 : A) (d : B) :
  (forall a, length (g a) = L) -> i < length l -> j < L ->
  nth (i * L + j) (flat_map g l) d = nth j (g (nth i l a0)) d.
Proof.
  intros HL. revert i. induction l as [|a l IH]; intros i Hi Hj; simpl in Hi; [lia|].
  simpl. destruct i as [|i]; simpl.
  - rewrite app_nth1; [reflexivity | now rewrite HL].
  - rewrite app_nth2; rewrite HL; [|lia].
    replace (L + i * L + j - L) with (i * L + j) by lia.
    apply IH; lia.
Qed.

Lemma length_flat_map_uniform {A B} (g : A -> list B) (L : nat) (l : list A) :
  (forall a, length (g a) = L) -> length (flat_map g l) = length l * L.
Proof.
  intros HL. induction l as [|a l IH]; simpl; [reflexivity|].
  now rewrite length_app, HL, IH.
Qed.

Lemma length_indices_cons (n : nat) (s : list nat) :
  length (indices (n :: s)) = n * length (indices s).
Proof.
  simpl. rewrite length_flat_map_uniform with (L := length (indices s)).
  - now rewrite length_seq.
  - intros a. apply length_map.
Qed.

(** The row-major position of an index is where the enumeration has it. *)
Lemma ravel_indices (s idx : list nat) :
  inb s idx ->
  ravel s idx < length (indices s) /\
  nth (ravel s idx) (indices s) [] = idx.
Proof.
  unfold inb. induction 1 as [|i d idx s Hlt H IH].
  - simpl. split; [lia | reflexivity].
  - destruct IH as [IH1 IH2]. split.
    + rewrite length_indices_cons. simpl. nia.
    + simpl.
      rewrite nth_flat_map_uniform with (L := length (indices s)) (a0 := 0).
      * rewrite seq_nth by assumption. simpl.
        change [] with (@nil nat) at 1.
        rewrite (nth_indep _ [] (i :: [])) by (now rewrite length_map).
        rewrite (map_nth (cons i)). now rewrite IH2.
      * intros a. apply length_map.
      * now rewrite length_seq.
      * assumption.
Qed.

Lemma reshape_get (T : tensor Q) (m idx : list nat) :
  get (reshape T m) idx = nth (ravel m idx) (to_list T) 0%Q.
Proof. reflexivity. Qed.

(** Reshaping a tensor to the shape it has changes nothing. *)
Lemma reshape_same (T : tensor Q) (m idx : list nat) :
  shape T = m -> inb m idx -> get (reshape T m) idx = get T idx.
Proof.
  intros Hs Hi. rewrite reshape_get. unfold to_list. rewrite Hs.
  destruct (ravel_indices Hi) as [H1 H2].
  rewrite (nth_indep _ 0%Q (get T [])) by (now rewrite length_map).
  rewrite map_nth. now rewrite H2.
Qed.

Lemma bc_reshape_same (s : list nat) (T : tensor Q) (m : list nat) v :
  shape T = m -> bc s T v -> bc s (reshape T m) v.
Proof.
  intros Hs [Hf Hv]. rewrite Hs in Hf. split; [exact Hf|].
  intros idx Hi. simpl shape.
  rewrite reshape_same; [|assumption|now apply bidx_inb with s].
  rewrite <- Hs at 1. now apply Hv.
Qed.

(** *** The shape [axis_mask]: 1 on every axis but the channel axis *)

Lemma length_indices_ones (n : nat) : length (indices (repeat 1 n)) = 1.
Proof.
  induction n as [|n IH]; [reflexivity|].
  change (repeat 1 (S n)) with (1 :: repeat 1 n).
  rewrite length_indices_cons, IH. reflexivity.
Qed.

Lemma ravel_zeros (s : list nat) (n : nat) : ravel s (repeat 0 n) = 0.
Proof.
  revert n. induction s as [|d s IH]; intros [|n]; simpl; auto.
Qed.

Lemma ravel_axis_mask (n k C c : nat) :
  k < n -> ravel (upd k C (repeat 1 n)) (upd k c (repeat 0 n)) = c.
Proof.
  revert k. induction n as [|n IH]; intros k Hk; [lia|].
  destruct k as [|k]; simpl.
  - rewrite ravel_zeros, length_indices_ones. lia.
  - rewrite IH by lia. reflexivity.
Qed.

Lemma Forall2_fits (s m : list nat) :
  Forall2 (fun a b => b = 1 \/ b = a) s m -> fits s m.
Proof.
  intros H. unfold fits. apply Forall2_rev in H.
  induction H; constructor; assumption.
Qed.

Lemma fits_axis_mask (s : list nat) (k : nat) :
  fits s (upd k (nth k s 0) (repeat 1 (length s))).
Proof.
  apply Forall2_fits. revert k.
  induction s as [|d s IH]; intros k; simpl; [destruct k; constructor|].
  destruct k as [|k]; simpl.
  - constructor; [now right|].
    clear. induction s; simpl; constructor; auto.
  - constructor; [now left | apply IH].
Qed.

Lemma bidx_r_zip (m idx : list nat) :
  bidx_r m idx
  = map (fun p => if fst p =? 1 then 0 else snd p) (combine m idx).
Proof.
  revert idx. induction m as [|d m IH]; intros [|i idx]; simpl; try reflexivity.
  now rewrite IH.
Qed.

Lemma combine_snoc {A B} (l : list A) (l' : list B) (x : A) (y : B) :
  length l = length l' ->
  combine (l ++ [x]) (l' ++ [y]) = combine l l' ++ [(x, y)].
Proof.
  revert l'. induction l as [|a l IH]; intros [|b l'] H; simpl in H;
    try discriminate; simpl; [reflexivity|].
  rewrite IH; [reflexivity | now injection H].
Qed.

Lemma combine_rev {A B} (l : list A) (l' : list B) :
  length l = length l' -> combine (rev l) (rev l') = rev (combine l l').
Proof.
  revert l'. induction l as [|a l IH]; intros [|b l'] H; simpl in H;
    try discriminate; simpl; [reflexivity|].
  rewrite combine_snoc, IH; try reflexivity; try (now injection H).
  rewrite !length_rev. now injection H.
Qed.

(** For operands with as many axes as the result, broadcasting reads
    position by position. *)
Lemma bidx_zip (m idx : list nat) :
  length m = length idx ->
  bidx m idx = map (fun p => if fst p =? 1 then 0 else snd p) (combine m idx).
Proof.
  intros H. unfold bidx. rewrite bidx_r_zip, combine_rev by assumption.
  rewrite <- map_rev, rev_involutive. reflexivity.
Qed.

Lemma zip_ones (n : nat) (idx : list nat) :
  length idx = n ->
  map (fun p => if fst p =? 1 then 0 else snd p) (combine (repeat 1 n) idx)
  = repeat 0 n.
Proof.
  revert idx. induction n as [|n IH]; intros [|i idx] H; simpl in H;
    try discriminate; simpl; [reflexivity|].
  rewrite IH; [reflexivity | now injection H].
Qed.

Lemma bidx_axis_mask (s idx : list nat) (k : nat) :
  inb s idx ->
  bidx (upd k (nth k s 0) (repeat 1 (length s))) idx
  = upd k (nth k idx 0) (repeat 0 (length s)).
Proof.
  intros H. rewrite bidx_zip
    by (now rewrite length_upd, repeat_length, (inb_length H)).
  revert k. induction H as [|i d idx s Hlt H IH]; intros k; simpl.
  - now destruct k.
  - destruct k as [|k]; simpl.
    + f_equal.
      * destruct (d =? 1) eqn:E; [apply Nat.eqb_eq in E; lia | reflexivity].
      * apply zip_ones. now apply Forall2_length in H.
    + f_equal. apply IH.
Qed.

Lemma to_list_vector {A} (T : tensor A) (C : nat) :
  shape T = [C] -> to_list T = map (fun i => get T [i]) (seq 0 C).
Proof.
  intros H. unfold to_list. rewrite H. simpl.
  generalize (seq 0 C) as l. induction l as [|i l IH]; simpl; [reflexivity|].
  now rewrite IH.
Qed.

(** [vec.reshape(axis_mask)] contributes the entry of [vec] at the channel
    of the index. *)
Lemma bc_reshape_axis_mask (s : list nat) (k : nat) (vec : tensor Q) :
  k < length s -> shape vec = [nth k s 0] ->
  bc s (reshape vec (upd k (nth k s 0) (repeat 1 (length s))))
       (fun idx => get vec [nth k idx 0]).
Proof.
  intros Hk Hs. split; [apply fits_axis_mask|].
  intros idx Hi. simpl shape. rewrite reshape_get.
  rewrite bidx_axis_mask by assumption.
  rewrite ravel_axis_mask by assumption.
  rewrite (to_list_vector _ Hs).
  rewrite (nth_indep _ 0%Q (get vec [0])).
  - rewrite (map_nth (fun i => get vec [i])). rewrite seq_nth; [reflexivity|].
    now apply inb_nth.
  - rewrite length_map, length_seq. now apply inb_nth.
Qed.

(* ================================================================== *)
(** ** Moving the channel axis to the front and back *)
(* ================================================================== *)

Lemma index_of_first (a : nat) (p : list nat) (j : nat) :
  j < length p -> nth j p 0 = a ->
  (forall j', j' < j -> nth j' p 0 <> a) ->
  index_of a p = j.
Proof.
  revert j. induction p as [|b p IH]; intros j Hj Hn Hfirst; simpl in Hj; [lia|].
  simpl. destruct j as [|j]; simpl in Hn.
  - subst. now rewrite Nat.eqb_refl.
  - destruct (b =? a) eqn:E.
    + apply Nat.eqb_eq in E. exfalso. apply (Hfirst 0); [lia | exact E].
    + f_equal. apply IH; [lia | assumption |].
      intros j' Hj'. apply (Hfirst (S j')). lia.
Qed.

Section SwapAxes.
Variables (n k : nat).
Hypothesis Hk : k < n.

(** The list [new_axis_list] of [_permute_to_axis_zero]. *)
Let p := upd 0 k (upd k 0 (seq 0 n)).

Lemma length_new_axis_list : length p = n.
Proof. subst p. now rewrite !length_upd, length_seq. Qed.

Lemma nth_new_axis_list (j : nat) : j < n -> nth j p 0 = swap_axis k j.
Proof.
  intros Hj. subst p. unfold swap_axis.
  rewrite nth_upd by (rewrite length_upd, length_seq; lia).
  destruct (j =? 0) eqn:E0; [reflexivity|].
  rewrite nth_upd by (rewrite length_seq; lia).
  destruct (j =? k) eqn:Ek; [reflexivity|].
  now rewrite seq_nth.
Qed.

Lemma swap_axis_lt (a : nat) : a < n -> swap_axis k a < n.
Proof.
  unfold swap_axis. intros H.
  destruct (a =? 0); [assumption|]. destruct (a =? k); lia.
Qed.

Lemma swap_axis_involutive (a : nat) : swap_axis k (swap_axis k a) = a.
Proof.
  unfold swap_axis.
  destruct (a =? 0) eqn:E0.
  - apply Nat.eqb_eq in E0. subst.
    destruct (k =? 0) eqn:Ek0; [now apply Nat.eqb_eq in Ek0|].
    now rewrite Nat.eqb_refl.
  - destruct (a =? k) eqn:Ek.
    + apply Nat.eqb_eq in Ek. now subst.
    + now rewrite E0, Ek.
Qed.

Lemma index_of_new_axis_list (a : nat) :
  a < n -> index_of a p = swap_axis k a.
Proof.
  intros Ha. apply index_of_first.
  - rewrite length_new_axis_list. now apply swap_axis_lt.
  - rewrite nth_new_axis_list by now apply swap_axis_lt.
    apply swap_axis_involutive.
  - intros j' Hj' E.
    assert (Hlt : j' < n) by (pose proof (swap_axis_lt Ha); lia).
    rewrite nth_new_axis_list in E by assumption.
    apply (f_equal (swap_axis k)) in E.
    rewrite swap_axis_involutive in E. lia.
Qed.

Lemma permute_new_axis_list_get {A} (T : tensor A) (idx : list nat) :
  get (permute T p) idx = get T (swap_index n k idx).
Proof.
  simpl. f_equal. rewrite length_new_axis_list. unfold swap_index.
  apply map_ext_in. intros a Ha. apply in_seq in Ha.
  rewrite index_of_new_axis_list by lia. reflexivity.
Qed.

Lemma length_swap_index (idx : list nat) : length (swap_index n k idx) = n.
Proof. unfold swap_index. now rewrite length_map, length_seq. Qed.

Lemma nth_swap_index (idx : list nat) (j : nat) :
  j < n -> nth j (swap_index n k idx) 0 = nth (swap_axis k j) idx 0.
Proof.
  intros Hj. unfold swap_index.
  rewrite (nth_indep _ 0 ((fun a => nth (swap_axis k a) idx 0) 0))
    by (now rewrite length_map, length_seq).
  rewrite (map_nth (fun a => nth (swap_axis k a) idx 0)).
  now rewrite seq_nth.
Qed.

Lemma swap_index_involutive (idx : list nat) :
  length idx = n -> swap_index n k (swap_index n k idx) = idx.
Proof.
  intros Hl. apply nth_ext with (d := 0) (d' := 0).
  - now rewrite length_swap_index.
  - rewrite length_swap_index. intros j Hj.
    rewrite nth_swap_index by assumption.
    rewrite nth_swap_index by now apply swap_axis_lt.
    now rewrite swap_axis_involutive.
Qed.

Lemma shape_permute_new_axis_list {A} (T : tensor A) :
  ndim T = n -> shape (permute T p) = swap_index n k (shape T).
Proof.
  intros Hn. simpl. unfold swap_index.
  apply nth_ext with (d := 0) (d' := 0).
  - now rewrite !length_map, length_new_axis_list, length_seq.
  - rewrite length_map, length_new_axis_list. intros j Hj.
    rewrite (nth_indep _ 0 ((fun a => nth a (shape T) 0) 0))
      by (now rewrite length_map, length_new_axis_list).
    rewrite (map_nth (fun a => nth a (shape T) 0)).
    rewrite nth_new_axis_list by assumption.
    fold (swap_index n k (shape T)). now rewrite nth_swap_index.
Qed.

Lemma inb_swap_index (s idx : list nat) :
  length s = n -> inb s idx -> inb (swap_index n k s) (swap_index n k idx).
Proof.
  intros Hs Hi. unfold inb. apply Forall2_nth_lt.
  rewrite !length_swap_index. split; [reflexivity|].
  intros j Hj. rewrite !nth_swap_index by assumption.
  apply inb_nth; [assumption|]. rewrite Hs. now apply swap_axis_lt.
Qed.

Lemma swap_index_head (idx : list nat) :
  exists rest, swap_index n k idx = nth k idx 0 :: rest.
Proof.
  pose proof (length_swap_index idx) as Hl.
  pose proof (@nth_swap_index idx 0) as H0.
  destruct (swap_index n k idx) as [|i rest]; simpl in Hl; [lia|].
  exists rest. f_equal. simpl in H0. rewrite H0 by lia. reflexivity.
Qed.

End SwapAxes.

(** The loop [for i in range(C): Xq[i] = V(i)]. *)
Lemma loop_set_select0 {A} (V : nat -> tensor A) (C : nat) (T0 : tensor A) :
  let T := fold_left (fun Xq i => set_select0 Xq i (V i)) (seq 0 C) T0 in
  shape T = shape T0 /\
  forall i rest, get T (i :: rest)
                 = if i <? C then get (V i) rest else get T0 (i :: rest).
Proof.
  induction C as [|C IH]; cbv zeta in *.
  - split; [reflexivity|]. intros i rest. reflexivity.
  - rewrite seq_S, fold_left_app. simpl. destruct IH as [IH1 IH2].
    split; [exact IH1|]. intros i rest.
    destruct (i =? C) eqn:E.
    + apply Nat.eqb_eq in E. subst.
      assert ((C <? S C) = true) as -> by (apply Nat.ltb_lt; lia). reflexivity.
    + rewrite IH2. apply Nat.eqb_neq in E.
      destruct (i <? C) eqn:L.
      * assert ((i <? S C) = true) as -> by (apply Nat.ltb_lt; apply Nat.ltb_lt in L; lia).
        reflexivity.
      * assert ((i <? S C) = false) as -> by (apply Nat.ltb_ge; apply Nat.ltb_ge in L; lia).
        reflexivity.
Qed.

(* ================================================================== *)
(** ** The per-channel helpers, element by element *)
(* ================================================================== *)

Lemma full_select0 {A} (s : list nat) (T : tensor A) (i : nat) :
  shape T = s -> full (tl s) (select 0 i T) (fun rest => get T (i :: rest)).
Proof.
  intros H. split; [|reflexivity].
  simpl. rewrite H. now destruct s.
Qed.

Lemma bc_select0_vector {A} (s : list nat) (vec : tensor A) (C i : nat) :
  shape vec = [C] -> bc s (select 0 i vec) (fun _ => get vec [i]).
Proof.
  intros H. split; simpl; rewrite H; [apply fits_nil | reflexivity].
Qed.

Section PerChannelHelpers.
Variables (X scale zero_point : tensor Q) (k : nat).
Variables (q_min q_max : Z).

Let s := shape X.
Let n := length s.
Let C := nth k s 0.

Hypothesis Hk : k < n.
Hypothesis Hscale : shape scale = [C].
Hypothesis Hzp : shape zero_point = [C].

(** The scale, the zero-point and the unclamped code at an index. *)
Let sv (idx : list nat) := get scale [nth k idx 0].
Let zv (idx : list nat) := get zero_point [nth k idx 0].
Let xq (idx : list nat) := code (get X idx) (sv idx) (zv idx).

Let p := upd 0 k (upd k 0 (seq 0 n)).
Let Xp := permute X p.
Let V (i : nat) :=
  round (select 0 i Xp *: (py_float 1 /: select 0 i scale)
         +: select 0 i zero_point).

Lemma permuted_shape : shape Xp = swap_index n k s.
Proof. apply shape_permute_new_axis_list; [exact Hk | reflexivity]. Qed.

Lemma permuted_size0 : nth 0 (shape Xp) 0 = C.
Proof.
  rewrite permuted_shape, nth_swap_index by lia.
  unfold swap_axis. simpl. reflexivity.
Qed.

Lemma channel_slice_full (i : nat) :
  full (tl (swap_index n k s)) (V i)
       (fun rest => code (get Xp (i :: rest)) (get scale [i])
                         (get zero_point [i])).
Proof.
  subst V. unfold round, py_float. cbv beta.
  pose proof (@full_select0 _ _ Xp i permuted_shape) as H1.
  pose proof (@bc_select0_vector _ (tl (swap_index n k s)) scale C i Hscale) as H2.
  pose proof (@bc_select0_vector _ (tl (swap_index n k s)) zero_point C i Hzp) as H3.
  eapply full_ext; [solve_full | reflexivity].
Qed.

(** The codes computed channel by channel on the permuted tensor, permuted
    back. *)
Lemma channel_codes_full :
  full s
       (permute
          (fold_left (fun Xq i => set_select0 Xq i (V i))
                     (seq 0 (nth 0 (shape Xp) 0)) (zeros_like Xp)) p)
       xq.
Proof.
  destruct (loop_set_select0 V (nth 0 (shape Xp) 0) (zeros_like Xp))
    as [Hs Hg].
  split.
  - rewrite shape_permute_new_axis_list with (k := k) (n := n).
    + rewrite Hs. change (shape (zeros_like Xp)) with (shape Xp).
      rewrite permuted_shape. now apply swap_index_involutive.
    + exact Hk.
    + unfold ndim. rewrite Hs.
      change (shape (zeros_like Xp)) with (shape Xp).
      now rewrite permuted_shape, length_swap_index.
  - intros idx Hi. unfold p at 1.
    rewrite permute_new_axis_list_get by exact Hk.
    pose proof (inb_swap_index Hk eq_refl Hi) as Hsw.
    destruct (swap_index_head Hk idx) as [rest Hrest].
    fold n in Hsw, Hrest. rewrite Hrest in Hsw |- *.
    rewrite Hg, permuted_size0.
    assert (Hc : nth k idx 0 < C) by (now apply inb_nth).
    apply Nat.ltb_lt in Hc. rewrite Hc.
    destruct (swap_index n k s) as [|d sp] eqn:Esp;
      [inversion Hsw|].
    inversion Hsw as [|? ? ? ? _ Hrest']; subst.
    pose proof (channel_slice_full (nth k idx 0)) as [_ Hv].
    rewrite Esp in Hv. simpl tl in Hv. rewrite Hv by assumption.
    unfold Xp, p. rewrite permute_new_axis_list_get by exact Hk.
    rewrite <- Hrest. rewrite swap_index_involutive;
      [reflexivity | exact Hk | now apply inb_length].
Qed.

Lemma permute_to_axis_zero_eq : _permute_to_axis_zero X k = (Xp, p).
Proof. reflexivity. Qed.

Lemma calculate_X_grad_per_channel_full (dY : tensor Q) :
  shape dY = s ->
  full s (_calculate_X_grad_per_channel dY X scale zero_point k q_min q_max)
       (fun idx => X_grad_elem (get dY idx) (xq idx) q_min q_max).
Proof.
  intros HdY. unfold _calculate_X_grad_per_channel.
  rewrite permute_to_axis_zero_eq. cbv zeta. unfold py_int.
  pose proof channel_codes_full as Hq.
  assert (Hy : full s dY (get dY)) by now apply full_intro.
  eapply full_ext; [solve_full | reflexivity].
Qed.

(** [_quantize_vectorized] on parameters already reshaped to [axis_mask],
    as [backward] calls it. *)
Lemma quantize_vectorized_full (b : bool) :
  let axis_mask := upd k (nth k (shape X) 0) (repeat 1 (ndim X)) in
  full s (_quantize_vectorized X k (reshape scale axis_mask)
                               (reshape zero_point axis_mask) q_min q_max b)
       (fun idx => if b then Qclamp (xq idx) q_min q_max else xq idx).
Proof.
  intros axis_mask. unfold _quantize_vectorized. cbv zeta.
  fold axis_mask.
  assert (Hx : full s X (get X)) by now apply full_intro.
  assert (Hs : bc s (reshape (reshape scale axis_mask) axis_mask) sv).
  { apply bc_reshape_same; [reflexivity|].
    now apply bc_reshape_axis_mask. }
  assert (Hz : bc s (reshape (reshape zero_point axis_mask) axis_mask) zv).
  { apply bc_reshape_same; [reflexivity|].
    now apply bc_reshape_axis_mask. }
  unfold round, clamp, py_float.
  destruct b; (eapply full_ext; [solve_full | reflexivity]).
Qed.

End PerChannelHelpers.

(* ================================================================== *)
(** ** Summing over every axis but one *)
(* ================================================================== *)

Lemma remove_seq (k n : nat) :
  k < n ->
  remove Nat.eq_dec k (seq 0 n) = seq 0 k ++ seq (S k) (n - S k).
Proof.
  intros Hk.
  replace n with (k + (1 + (n - S k))) at 1 by lia.
  rewrite seq_app, seq_app, remove_app. simpl.
  destruct (Nat.eq_dec k k) as [_|N]; [|contradiction].
  replace (k + 1) with (S k) by lia.
  rewrite !notin_remove; [reflexivity | |]; rewrite in_seq; lia.
Qed.

Lemma firstn_insert_at {A} (b : nat) (i : A) (idx : list A) :
  b <= length idx -> firstn (S b) (insert_at b i idx) = firstn b idx ++ [i].
Proof.
  intros H. unfold insert_at.
  rewrite firstn_app, length_firstn, Nat.min_l by assumption.
  rewrite firstn_all2 by (rewrite length_firstn; lia).
  replace (S b - b) with 1 by lia. reflexivity.
Qed.

Lemma skipn_insert_at {A} (b : nat) (i : A) (idx : list A) :
  b <= length idx -> skipn (S b) (insert_at b i idx) = skipn b idx.
Proof.
  intros H. unfold insert_at.
  rewrite skipn_app, length_firstn, Nat.min_l by assumption.
  rewrite skipn_all2 by (rewrite length_firstn; lia).
  replace (S b - b) with 1 by lia. reflexivity.
Qed.

Lemma skipn_nth_cons (b : nat) (s : list nat) :
  b < length s -> skipn b s = nth b s 0 :: skipn (S b) s.
Proof.
  revert b. induction s as [|d s IH]; intros [|b] H; simpl in H; try lia.
  - reflexivity.
  - simpl. rewrite <- IH by lia. reflexivity.
Qed.

(** Reducing the [j] consecutive axes [b], ..., [b + j - 1]: the shape that
    is left, and every element as the sum over the reduced positions. *)
Lemma sum_consecutive_axes (T : tensor Q) (j b : nat) :
  b + j <= ndim T ->
  let R := fold_right sum_axis T (seq b j) in
  shape R = firstn b (shape T) ++ skipn (b + j) (shape T) /\
  forall idx, b <= length idx ->
    (get R idx
     == Qsum (map (fun mid => get T (firstn b idx ++ mid ++ skipn b idx))
                  (indices (firstn j (skipn b (shape T))))))%Q.
Proof.
  unfold ndim. revert b. induction j as [|j IH]; intros b Hb; cbv zeta.
  - simpl fold_right. split.
    + rewrite Nat.add_0_r. now rewrite firstn_skipn.
    + intros idx Hi. simpl. rewrite firstn_skipn. ring.
  - simpl fold_right.
    destruct (IH (S b)) as [IHs IHg]; [lia|].
    set (R := fold_right sum_axis T (seq (S b) j)) in *.
    assert (Hnth : nth b (shape R) 0 = nth b (shape T) 0).
    { rewrite IHs. rewrite app_nth1 by (rewrite length_firstn; lia).
      rewrite nth_firstn.
      assert ((b <? S b) = true) as -> by (apply Nat.ltb_lt; lia).
      reflexivity. }
    split.
    + simpl shape. rewrite IHs, remove_nth_split.
      rewrite firstn_app, firstn_firstn, Nat.min_l by lia.
      rewrite length_firstn, Nat.min_l by lia.
      replace (b - S b) with 0 by lia. simpl firstn at 2. rewrite app_nil_r.
      rewrite skipn_app, length_firstn, Nat.min_l by lia.
      rewrite skipn_all2 by (rewrite length_firstn; lia).
      replace (S b - S b) with 0 by lia. simpl.
      now replace (b + S j) with (S (b + j)) by lia.
    + intros idx Hi. simpl get. rewrite Hnth.
      rewrite (@skipn_nth_cons b (shape T)) by lia.
      simpl firstn. simpl indices. rewrite Qsum_flat_map.
      apply Qsum_map_ext. intros i _.
      rewrite IHg by (rewrite length_insert_at; lia).
      rewrite firstn_insert_at, skipn_insert_at by assumption.
      rewrite map_map. apply Qsum_map_ext. intros mid _.
      rewrite <- app_assoc. reflexivity.
Qed.

Lemma insert_at_app {A} (k : nat) (c : A) (pre post : list A) :
  length pre = k -> insert_at k c (pre ++ post) = pre ++ c :: post.
Proof.
  intros H. unfold insert_at.
  rewrite firstn_app, skipn_app, H, Nat.sub_diag. simpl.
  rewrite firstn_all2, skipn_all2 by lia. rewrite app_nil_r. reflexivity.
Qed.

(** [T.sum(axis_for_reduction)]: a vector with one entry per channel, the
    sum of the slice of that channel. *)
Lemma sum_all_but_channel (T : tensor Q) (k : nat) :
  k < ndim T ->
  let R := sum_dims (remove Nat.eq_dec k (seq 0 (ndim T))) T in
  shape R = [nth k (shape T) 0] /\
  forall c, (get R [c] == Qsum (to_list (select k c T)))%Q.
Proof.
  intros Hk R. subst R. unfold sum_dims.
  rewrite remove_seq by assumption. rewrite fold_right_app.
  unfold ndim in *. remember (shape T) as s eqn:Es.
  remember (length s) as n eqn:En.
  destruct (@sum_consecutive_axes T (n - S k) (S k)) as [Hs1 Hg1].
  { unfold ndim. rewrite <- Es, <- En. lia. }
  remember (fold_right sum_axis T (seq (S k) (n - S k))) as T1 eqn:ET1.
  rewrite <- Es in Hs1, Hg1.
  assert (Hs1' : shape T1 = firstn (S k) s).
  { rewrite Hs1. replace (S k + (n - S k)) with n by lia.
    rewrite En, skipn_all. apply app_nil_r. }
  destruct (@sum_consecutive_axes T1 k 0) as [Hs2 Hg2].
  { unfold ndim. rewrite Hs1', length_firstn. lia. }
  split.
  - rewrite Hs2. simpl. rewrite Hs1'.
    rewrite (@skipn_nth_cons k (firstn (S k) s)) by (rewrite length_firstn; lia).
    rewrite nth_firstn.
    assert ((k <? S k) = true) as -> by (apply Nat.ltb_lt; lia).
    rewrite skipn_all2 by (rewrite length_firstn; lia). reflexivity.
  - intros c. rewrite Hg2 by (simpl; lia).
    unfold to_list. simpl shape. rewrite <- Es.
    rewrite remove_nth_split, indices_app.
    rewrite Hs1', !skipn_O, firstn_O, firstn_firstn, Nat.min_l by lia.
    change (get (select k c T)) with (fun i => get T (insert_at k c i)).
    rewrite (Qsum_flat_map (fun i => get T (insert_at k c i))).
    apply Qsum_map_ext. intros pre Hpre.
    apply indices_length_elem in Hpre.
    rewrite length_firstn, Nat.min_l in Hpre by lia.
    cbn [app].
    rewrite Hg1 by (rewrite length_app; simpl; lia).
    rewrite (@firstn_all2 _ (n - S k) (skipn (S k) s))
      by (rewrite length_skipn; lia).
    rewrite map_map. apply Qsum_map_ext. intros post _.
    rewrite (@firstn_all2 _ (S k) (pre ++ [c]))
      by (rewrite length_app; simpl; lia).
    rewrite (@skipn_all2 _ (S k) (pre ++ [c]))
      by (rewrite length_app; simpl; lia).
    rewrite app_nil_r.
    rewrite insert_at_app by assumption.
    rewrite <- app_assoc. reflexivity.
Qed.

(* ================================================================== *)
(** ** The per-channel kernel, element by element *)
(* ================================================================== *)

Lemma inb_vector (C c : nat) : c < C -> inb [C] [c].
Proof. intros H. repeat constructor. exact H. Qed.

Lemma item_select0_vector {A} (vec : tensor A) (C c : nat) :
  shape vec = [C] -> item (select 0 c vec) = get vec [c].
Proof. intros H. unfold item, ndim. simpl. now rewrite H. Qed.

(** A vector multiplied by a Python number. *)
Lemma vector_times (R : tensor Q) (g : Q) (C c : nat) :
  shape R = [C] -> c < C ->
  shape (R *: py_float g) = [C] /\
  get (R *: py_float g) [c] = (get R [c] * g)%Q.
Proof.
  intros Hs Hc. split.
  - simpl. rewrite Hs. apply (bshape_fits_l (fits_nil [C])).
  - change (get (R *: py_float g) [c])
      with (get R (bidx (shape R) [c]) * g)%Q.
    now rewrite Hs, (bidx_same (inb_vector Hc)).
Qed.

Section PerChannel.
Variables (X scale zero_point grad_Y : tensor Q) (k : nat).
Variables (q_min q_max : Z) (grad_factor : Q).

Let s := shape X.
Let C := nth k s 0.

Hypothesis Hk : k < length s.
Hypothesis Hscale : shape scale = [C].
Hypothesis Hzp : shape zero_point = [C].
Hypothesis HdY : shape grad_Y = s.

Let c := fst (PC.forward X scale zero_point k q_min q_max grad_factor).
Let X_fq := snd (PC.forward X scale zero_point k q_min q_max grad_factor).
Let grad_X := fst (fst (PC.backward c grad_Y)).
Let grad_scale := snd (fst (PC.backward c grad_Y)).
Let grad_zp := snd (PC.backward c grad_Y).

Let zp_vec := type_int64 (clamp (zero_point +: py_float (1 # 2)) q_min q_max).

(** The scale, the effective zero-point and the kernel's elements at an
    index. *)
Let sv (idx : list nat) := get scale [nth k idx 0].
Let zv (idx : list nat) :=
  inject_Z (effective_zero_point (get zero_point [nth k idx 0]) q_min q_max).
Let xq idx := code (get X idx) (sv idx) (zv idx).
Let xfq idx := fake_quantize_elem (get X idx) (sv idx) (zv idx) q_min q_max.
Let dx idx := X_grad_elem (get grad_Y idx) (xq idx) q_min q_max.

Lemma zp_vec_full :
  full [C] zp_vec
       (fun idx => inject_Z (effective_zero_point (get zero_point idx) q_min q_max)).
Proof.
  subst zp_vec. unfold type_int64, clamp, py_float.
  assert (Hz : full [C] zero_point (get zero_point)) by now apply full_intro.
  eapply full_ext; [solve_full | reflexivity].
Qed.

Lemma zp_vec_get (idx : list nat) :
  inb s idx -> get zp_vec [nth k idx 0] = zv idx.
Proof.
  intros Hi. apply (full_get zp_vec_full).
  apply inb_vector. now apply inb_nth.
Qed.

Lemma per_channel_forward_full : full s X_fq xfq.
Proof.
  split; [reflexivity|]. intros idx Hi.
  subst X_fq. unfold PC.forward. cbn [snd].
  unfold fake_quantize_per_channel_affine. cbn [get]. cbv zeta.
  fold zp_vec. rewrite (zp_vec_get Hi). reflexivity.
Qed.

Lemma per_channel_grad_X_full : full s grad_X dx.
Proof.
  subst grad_X c. unfold PC.backward, PC.forward.
  cbn [fst snd PC.saved_tensors PC.other]. cbv zeta. fold zp_vec.
  eapply full_ext.
  - apply calculate_X_grad_per_channel_full;
      [exact Hk | exact Hscale | apply (full_shape zp_vec_full) | exact HdY].
  - intros idx Hi. cbv beta. unfold dx, xq. f_equal.
    now rewrite (zp_vec_get Hi).
Qed.

Lemma per_channel_clamped_code_full :
  let axis_mask := upd k (nth k (shape X) 0) (repeat 1 (ndim X)) in
  full s (_quantize_vectorized X k (reshape scale axis_mask)
                               (reshape zp_vec axis_mask) q_min q_max true)
       (fun idx => Qclamp (xq idx) q_min q_max).
Proof.
  intros axis_mask. eapply full_ext.
  - apply (@quantize_vectorized_full X scale zp_vec k q_min q_max);
      [exact Hk | exact Hscale | apply (full_shape zp_vec_full)].
  - intros idx Hi. cbv beta. unfold xq. now rewrite (zp_vec_get Hi).
Qed.

Lemma reshaped_scale_bc :
  bc s (reshape scale (upd k (nth k (shape X) 0) (repeat 1 (ndim X)))) sv.
Proof. now apply bc_reshape_axis_mask. Qed.

Lemma reshaped_zp_bc :
  bc s (reshape zp_vec (upd k (nth k (shape X) 0) (repeat 1 (ndim X)))) zv.
Proof.
  eapply bc_ext.
  - apply bc_reshape_axis_mask; [exact Hk | apply (full_shape zp_vec_full)].
  - intros idx Hi. now apply zp_vec_get.
Qed.

(** The elementwise gradients before the reduction. *)
Lemma per_channel_scale_grad_full :
  let axis_mask := upd k (nth k (shape X) 0) (repeat 1 (ndim X)) in
  full s
       (_calculate_scale_grad
          grad_X X X_fq
          (_quantize_vectorized X k (reshape scale axis_mask)
                                (reshape zp_vec axis_mask) q_min q_max true)
          (reshape scale axis_mask) (reshape zp_vec axis_mask) q_min q_max)
       (fun i => scale_grad_elem (dx i) (get X i) (xfq i)
                                 (Qclamp (xq i) q_min q_max)
                                 (sv i) (zv i) q_min q_max).
Proof.
  intros axis_mask. apply calculate_scale_grad_full.
  - apply per_channel_grad_X_full.
  - now apply full_intro.
  - apply per_channel_forward_full.
  - apply per_channel_clamped_code_full.
  - apply reshaped_scale_bc.
  - apply reshaped_zp_bc.
Qed.

Lemma per_channel_zero_point_grad_full :
  let axis_mask := upd k (nth k (shape X) 0) (repeat 1 (ndim X)) in
  full s
       (_calculate_zero_point_grad
          grad_X X X_fq
          (_quantize_vectorized X k (reshape scale axis_mask)
                                (reshape zp_vec axis_mask) q_min q_max true)
          (reshape scale axis_mask) (reshape zp_vec axis_mask) q_min q_max)
       (fun i => zero_point_grad_elem (dx i) (Qclamp (xq i) q_min q_max)
                                      (sv i) q_min q_max).
Proof.
  intros axis_mask. apply calculate_zero_point_grad_full.
  - apply per_channel_grad_X_full.
  - apply per_channel_clamped_code_full.
  - apply reshaped_scale_bc.
Qed.

Lemma per_channel_grad_scale :
  shape grad_scale = [C] /\
  forall ch, ch < C ->
  (get grad_scale [ch]
   == Qsum (map (fun i => scale_grad_elem (dx i) (get X i) (xfq i)
                            (Qclamp (xq i) q_min q_max)
                            (sv i) (zv i) q_min q_max)
                (map (insert_at k ch) (indices (remove_nth k s))))
      * grad_factor)%Q.
Proof.
  pose proof per_channel_scale_grad_full as HT. cbv zeta in HT.
  set (T := _calculate_scale_grad _ _ _ _ _ _ _ _) in HT.
  assert (HR : k < ndim T) by (unfold ndim; now rewrite (full_shape HT)).
  destruct (sum_all_but_channel T HR) as [Hs Hg].
  assert (E : grad_scale
              = sum_dims (remove Nat.eq_dec k (seq 0 (ndim T))) T
                *: py_float grad_factor).
  { unfold ndim. rewrite (full_shape HT). reflexivity. }
  rewrite (full_shape HT) in Hs. fold C in Hs.
  rewrite E. split.
  - change (shape (sum_dims (remove Nat.eq_dec k (seq 0 (ndim T))) T
                   *: py_float grad_factor))
      with (bshape (shape (sum_dims (remove Nat.eq_dec k (seq 0 (ndim T))) T))
                   []).
    rewrite Hs. apply (bshape_fits_l (fits_nil [C])).
  - intros ch Hch.
    destruct (@vector_times _ grad_factor C ch Hs Hch) as [_ Hg1].
    rewrite Hg1, Hg. apply Qmult_comp; [|reflexivity].
    unfold to_list. cbn [select shape]. rewrite (full_shape HT), map_map.
    apply Qsum_map_ext. intros i Hi. cbn [select get].
    rewrite (full_get HT); [reflexivity|].
    apply inb_insert_at; [exact Hk | exact Hch | now apply In_indices].
Qed.

Lemma per_channel_grad_zp :
  shape grad_zp = [C] /\
  forall ch, ch < C ->
  (get grad_zp [ch]
   == Qsum (map (fun i => zero_point_grad_elem (dx i)
                            (Qclamp (xq i) q_min q_max) (sv i) q_min q_max)
                (map (insert_at k ch) (indices (remove_nth k s))))
      * grad_factor)%Q.
Proof.
  pose proof per_channel_zero_point_grad_full as HT. cbv zeta in HT.
  set (T := _calculate_zero_point_grad _ _ _ _ _ _ _ _) in HT.
  assert (HR : k < ndim T) by (unfold ndim; now rewrite (full_shape HT)).
  destruct (sum_all_but_channel T HR) as [Hs Hg].
  assert (E : grad_zp
              = sum_dims (remove Nat.eq_dec k (seq 0 (ndim T))) T
                *: py_float grad_factor).
  { unfold ndim. rewrite (full_shape HT). reflexivity. }
  rewrite (full_shape HT) in Hs. fold C in Hs.
  rewrite E. split.
  - change (shape (sum_dims (remove Nat.eq_dec k (seq 0 (ndim T))) T
                   *: py_float grad_factor))
      with (bshape (shape (sum_dims (remove Nat.eq_dec k (seq 0 (ndim T))) T))
                   []).
    rewrite Hs. apply (bshape_fits_l (fits_nil [C])).
  - intros ch Hch.
    destruct (@vector_times _ grad_factor C ch Hs Hch) as [_ Hg1].
    rewrite Hg1, Hg. apply Qmult_comp; [|reflexivity].
    unfold to_list. cbn [select shape]. rewrite (full_shape HT), map_map.
    apply Qsum_map_ext. intros i Hi. cbn [select get].
    rewrite (full_get HT); [reflexivity|].
    apply inb_insert_at; [exact Hk | exact Hch | now apply In_indices].
Qed.

End PerChannel.

(* ================================================================== *)
(** ** The effective zero-point *)
(* ================================================================== *)

Local Open Scope Q_scope.

Lemma Qtrunc_nonpos (x : Q) : x <= 0 -> Qtrunc x = Qceiling x.
Proof.
  destruct x as [n d]. unfold Qle, Qtrunc, Qceiling, Qfloor, Qopp. simpl.
  intros H. rewrite Z.mul_1_r in H.
  rewrite <- (Z.opp_involutive n) at 1.
  rewrite Z.quot_opp_l by lia. f_equal.
  apply Z.quot_div_nonneg; lia.
Qed.

Lemma Qtrunc_bounds (x : Q) (lo hi : Z) :
  inject_Z lo <= x -> x <= inject_Z hi -> (lo <= Qtrunc x <= hi)%Z.
Proof.
  intros H1 H2. destruct (Qlt_le_dec x 0) as [N|P].
  - rewrite Qtrunc_nonpos by lra. split.
    + rewrite <- (Qceiling_Z lo). now apply Qceiling_resp_le.
    + rewrite <- (Qceiling_Z hi). now apply Qceiling_resp_le.
  - rewrite Qtrunc_nonneg by assumption. split.
    + rewrite <- (Qfloor_Z lo). now apply Qfloor_resp_le.
    + rewrite <- (Qfloor_Z hi). now apply Qfloor_resp_le.
Qed.

(** The effective zero-point is an integer of the quantization range. *)
Lemma effective_zero_point_bounds (z : Q) (q_min q_max : Z) :
  (q_min <= q_max)%Z ->
  (q_min <= effective_zero_point z q_min q_max <= q_max)%Z.
Proof.
  intros H. unfold effective_zero_point.
  destruct (Qclamp_bounds (z + (1 # 2)) H). now apply Qtrunc_bounds.
Qed.

Lemma Qfloor_Qclamp (x : Q) (lo hi : Z) :
  (lo <= hi)%Z -> Qfloor (Qclamp x lo hi) = Zclamp (Qfloor x) lo hi.
Proof.
  intros H. unfold Zclamp.
  destruct (Qlt_le_dec x (inject_Z lo)) as [L|L].
  - rewrite Qclamp_below, Qfloor_Z by assumption.
    assert (Qfloor x <= lo)%Z.
    { rewrite <- (Qfloor_Z lo). apply Qfloor_resp_le. lra. }
    lia.
  - assert (lo <= Qfloor x)%Z.
    { rewrite <- (Qfloor_Z lo). now apply Qfloor_resp_le. }
    destruct (Qlt_le_dec (inject_Z hi) x) as [U|U].
    + rewrite Qclamp_above, Qfloor_Z by assumption.
      assert (hi <= Qfloor x)%Z.
      { rewrite <- (Qfloor_Z hi). apply Qfloor_resp_le. lra. }
      lia.
    + rewrite Qclamp_in by assumption.
      assert (Qfloor x <= hi)%Z.
      { rewrite <- (Qfloor_Z hi). now apply Qfloor_resp_le. }
      lia.
Qed.

(** Adding one half and taking the floor rounds to a nearest integer. *)
Lemma floor_half_nearest (z : Q) : nearest_integer z (Qfloor (z + (1 # 2))).
Proof.
  unfold nearest_integer.
  pose proof (Qfloor_le (z + (1 # 2))) as H1.
  pose proof (Qlt_floor (z + (1 # 2))) as H2.
  rewrite inject_Z_plus in H2. apply Qabs_Qle_condition.
  change (inject_Z 1) with 1 in H2. split; lra.
Qed.

(** Where the clamped value is not negative (so whenever [q_min >= 0]) the
    truncation is a floor, and the effective zero-point is the zero-point
    rounded to a nearest integer (a tie goes up), then clamped. *)
Lemma effective_zero_point_nonneg (z : Q) (q_min q_max : Z) :
  (q_min <= q_max)%Z -> 0 <= Qclamp (z + (1 # 2)) q_min q_max ->
  effective_zero_point z q_min q_max
  = Zclamp (Qfloor (z + (1 # 2))) q_min q_max.
Proof.
  intros H P. unfold effective_zero_point.
  rewrite Qtrunc_nonneg by assumption. now apply Qfloor_Qclamp.
Qed.

Lemma effective_zero_point_unsigned_range (z : Q) (q_min q_max : Z) :
  (0 <= q_min <= q_max)%Z ->
  exists r, nearest_integer z r /\
            effective_zero_point z q_min q_max = Zclamp r q_min q_max.
Proof.
  intros [H0 H]. exists (Qfloor (z + (1 # 2))). split.
  - apply floor_half_nearest.
  - apply effective_zero_point_nonneg; [assumption|].
    destruct (Qclamp_bounds (z + (1 # 2)) H) as [B _].
    assert (inject_Z 0 <= inject_Z q_min) by (rewrite <- Zle_Qle; exact H0).
    change (inject_Z 0) with 0 in *.
    lra.
Qed.

Local Open Scope nat_scope.
Local Open Scope tensor_scope.

(* ================================================================== *)
(** ** The element formulas against the specification's wording *)
(* ================================================================== *)

(** The helpers multiply by [1.0 / scale] where the specification divides
    by [scale]. *)
Lemma code_div (x scale zp : Q) : code x scale zp = Qround (x / scale + zp).
Proof. unfold code. apply Qround_comp. unfold Qdiv. ring. Qed.

Lemma X_grad_elem_in (dy xq : Q) (q_min q_max : Z) :
  (inject_Z q_min <= xq)%Q -> (xq <= inject_Z q_max)%Q ->
  X_grad_elem dy xq q_min q_max = dy.
Proof.
  intros H1 H2. unfold X_grad_elem.
  apply Qle_bool_iff in H1. apply Qle_bool_iff in H2. now rewrite H1, H2.
Qed.

Lemma X_grad_elem_out (dy xq : Q) (q_min q_max : Z) :
  ~ ((inject_Z q_min <= xq)%Q /\ (xq <= inject_Z q_max)%Q) ->
  X_grad_elem dy xq q_min q_max = 0%Q.
Proof.
  intros H. unfold X_grad_elem.
  destruct (Qle_bool (inject_Z q_min) xq) eqn:E1;
    destruct (Qle_bool xq (inject_Z q_max)) eqn:E2; try reflexivity.
  exfalso. apply H. split; now apply Qle_bool_iff.
Qed.

Lemma boundaries_exclusive (x : Q) (q_min q_max : Z) :
  (q_min < q_max)%Z ->
  Qeq_bool x (inject_Z q_min) = true -> Qeq_bool x (inject_Z q_max) = false.
Proof.
  intros H E. apply Qeq_bool_iff in E.
  destruct (Qeq_bool x (inject_Z q_max)) eqn:E'; [|reflexivity].
  apply Qeq_bool_iff in E'. rewrite E in E'.
  unfold Qeq in E'. simpl in E'. lia.
Qed.

Lemma scale_grad_elem_regime (g x x_fq x_q scale zp : Q) (q_min q_max : Z) :
  (q_min < q_max)%Z ->
  (scale_grad_elem g x x_fq x_q scale zp q_min q_max
   == spec_scale_regime x_q x x_fq scale zp q_min q_max * g)%Q.
Proof.
  intros H. unfold scale_grad_elem, spec_scale_regime, ind.
  destruct (Qeq_bool x_q (inject_Z q_min)) eqn:E1.
  - rewrite (boundaries_exclusive _ H E1). ring.
  - destruct (Qeq_bool x_q (inject_Z q_max)); ring.
Qed.

Lemma zero_point_grad_elem_regime (g x_q scale : Q) (q_min q_max : Z) :
  (q_min < q_max)%Z ->
  (zero_point_grad_elem g x_q scale q_min q_max
   == spec_zero_point_regime x_q scale q_min q_max * g)%Q.
Proof.
  intros H. unfold zero_point_grad_elem, spec_zero_point_regime, ind.
  destruct (Qeq_bool x_q (inject_Z q_min)) eqn:E1.
  - rewrite (boundaries_exclusive _ H E1). simpl. ring.
  - destruct (Qeq_bool x_q (inject_Z q_max)); simpl; ring.
Qed.

(* ================================================================== *)
(** ** The claims *)
(* ================================================================== *)



(** C2.  The zero-point both kernels use is [zero_point + 0.5], clamped,
    then truncated toward zero, which is not the nearest integer of a
    negative value.  For [zero_point = -1.2], [q_min = -128], [q_max = 127]
    the only nearest integer is [-1], which the clamp keeps, but the
    expression of the per-tensor forward and backward and the one of the
    per-channel forward and backward give [0]; the per-tensor output for
    [X = [200]] and scale 1 is [127], where the zero-point [-1] gives
    [128]. *)
Theorem zero_point_negative_truncation :
  let zero_point := of_list [(-6) # 5] in
  (forall r, nearest_integer ((-6) # 5) r -> Zclamp r (-128) 127 = (-1)%Z) /\
  Qtrunc (item (clamp (zero_point +: py_float (1 # 2)) (-128) 127)) = 0%Z /\
  (get (type_int64 (clamp (zero_point +: py_float (1 # 2)) (-128) 127)) [0%nat]
   == 0)%Q /\
  Forall2 Qeq
    (to_list (snd (PT.forward (of_list [200 # 1]) (of_list [1%Q]) zero_point
                              (-128) 127 1)))
    [127 # 1] /\
  Forall2 Qeq
    (to_list (snd (PC.forward (of_list [200 # 1]) (of_list [1%Q]) zero_point
                              0 (-128) 127 1)))
    [127 # 1] /\
  Forall2 Qeq
    (to_list (fake_quantize_per_tensor_affine
                (of_list [200 # 1]) 1 (-1) (-128) 127))
    [128 # 1].
Proof.
  cbv zeta. split; [|repeat split; vm_compute; repeat constructor;
                     try discriminate; try reflexivity].
  intros r H. unfold nearest_integer in H.
  apply Qabs_Qle_condition in H. destruct H as [H1 H2].
  unfold Qle in H1, H2. simpl in H1, H2. unfold Zclamp. lia.
Qed.












(** C10.  Whenever [q_min < q_max], at every element of the clamped code
    tensor the three indicators of [_calculate_scale_grad] are 0 or 1 and
    sum to 1, so that exactly one of them is 1, and so do the two
    indicators of [_calculate_zero_point_grad].  (That the codes lie within
    [[q_min, q_max]] is not needed.) *)
Theorem regime_indicators_partition (X_q : tensor Q) (q_min q_max : Z) :
  (q_min < q_max)%Z ->
  forall idx, inb (shape X_q) idx ->
    let small := get (indicate_small_scale X_q q_min) idx in
    let big := get (indicate_big_scale X_q q_max) idx in
    let middle := get (indicate_middle_scale X_q q_min q_max) idx in
    let saturate := get (indicate_saturate_zp X_q q_min q_max) idx in
    let unsaturate := get (indicate_unsaturate_zp X_q q_min q_max) idx in
    ((small == 0 \/ small == 1) /\ (big == 0 \/ big == 1) /\
     (middle == 0 \/ middle == 1) /\ small + big + middle == 1 /\
     (saturate == 0 \/ saturate == 1) /\
     (unsaturate == 0 \/ unsaturate == 1) /\
     saturate + unsaturate == 1)%Q.
Proof.
  intros Hq idx Hi. cbv zeta.
  assert (Hx : full (shape X_q) X_q (get X_q)) by now apply full_intro.
  assert (F1 : full (shape X_q) (indicate_small_scale X_q q_min)
                    (fun i => ind (Qeq_bool (get X_q i) (inject_Z q_min)))).
  { unfold indicate_small_scale, float, py_int.
    eapply full_ext; [solve_full | reflexivity]. }
  assert (F2 : full (shape X_q) (indicate_big_scale X_q q_max)
                    (fun i => ind (Qeq_bool (get X_q i) (inject_Z q_max)))).
  { unfold indicate_big_scale, float, py_int.
    eapply full_ext; [solve_full | reflexivity]. }
  assert (F3 : full (shape X_q) (indicate_middle_scale X_q q_min q_max)
                    (fun i => (1 - ind (Qeq_bool (get X_q i) (inject_Z q_min))
                               - ind (Qeq_bool (get X_q i) (inject_Z q_max)))%Q)).
  { unfold indicate_middle_scale, indicate_small_scale, indicate_big_scale,
      float, py_int.
    eapply full_ext; [solve_full | reflexivity]. }
  assert (F4 : full (shape X_q) (indicate_saturate_zp X_q q_min q_max)
                    (fun i => (ind (Qeq_bool (get X_q i) (inject_Z q_min))
                               + ind (Qeq_bool (get X_q i) (inject_Z q_max)))%Q)).
  { unfold indicate_saturate_zp, float, py_int.
    eapply full_ext; [solve_full | reflexivity]. }
  assert (F5 : full (shape X_q) (indicate_unsaturate_zp X_q q_min q_max)
                    (fun i => (1 - (ind (Qeq_bool (get X_q i) (inject_Z q_min))
                                    + ind (Qeq_bool (get X_q i)
                                                    (inject_Z q_max))))%Q)).
  { unfold indicate_unsaturate_zp, indicate_saturate_zp, float, py_int.
    eapply full_ext; [solve_full | reflexivity]. }
  rewrite (full_get F1 Hi), (full_get F2 Hi), (full_get F3 Hi),
    (full_get F4 Hi), (full_get F5 Hi).
  unfold ind.
  destruct (Qeq_bool (get X_q idx) (inject_Z q_min)) eqn:E1.
  - rewrite (boundaries_exclusive _ Hq E1).
    repeat split; try (left; reflexivity); try (right; reflexivity);
      reflexivity.
  - destruct (Qeq_bool (get X_q idx) (inject_Z q_max));
      repeat split; try (left; reflexivity); try (right; reflexivity);
        reflexivity.
Qed.

Lemma regime_indicators_partition_witness :
  (0 < 3)%Z /\
  forall idx, inb (shape scenario_X) idx ->
    (get (indicate_small_scale scenario_X 0) idx
     + get (indicate_big_scale scenario_X 3) idx
     + get (indicate_middle_scale scenario_X 0 3) idx == 1)%Q.
Proof.
  split; [lia|]. intros idx Hi.
  destruct (@regime_indicators_partition scenario_X 0 3 eq_refl idx Hi)
    as (_ & _ & _ & S & _).
  exact S.
Defined.

Lemma slice_index_channel (s idx : list nat) (k c : nat) :
  k < length s -> inb (remove_nth k s) idx ->
  nth k (insert_at k c idx) 0 = c.
Proof.
  intros Hk Hi. apply nth_insert_at.
  pose proof (inb_length Hi) as Hl.
  pose proof (length_remove_nth s Hk). lia.
Qed.

Lemma scalar_like_select0_vector {A} (s : list nat) (vec : tensor A) (C c : nat) :
  shape vec = [C] -> scalar_like s (select 0 c vec).
Proof.
  intros H. exists 0. split; [|simpl; lia]. simpl. now rewrite H.
Qed.



(* ================================================================== *)
(** ** Further properties of the helpers and of the kernels *)
(* ================================================================== *)

(** [_permute_to_axis_zero] brings the channel axis to the front, and
    permuting its result with the list it returns gives the tensor back:
    this is what [_calculate_X_grad_per_channel] relies on when it permutes
    the codes back. *)
Theorem permute_to_axis_zero_round_trip (X : tensor Q) (k : nat) :
  k < ndim X ->
  let Y := fst (_permute_to_axis_zero X k) in
  let new_axis_list := snd (_permute_to_axis_zero X k) in
  ndim Y = ndim X /\
  nth 0 (shape Y) 0 = nth k (shape X) 0 /\
  nth k (shape Y) 0 = nth 0 (shape X) 0 /\
  (forall i rest, inb (shape Y) (i :: rest) ->
     exists idx, inb (shape X) idx /\ nth k idx 0 = i /\
                 get Y (i :: rest) = get X idx) /\
  tensor_eq (permute Y new_axis_list) X.
Proof.
  intros Hk. cbv zeta. unfold _permute_to_axis_zero. cbn [fst snd].
  unfold ndim in *.
  pose proof (@shape_permute_new_axis_list (length (shape X)) k Hk _ X eq_refl)
    as Hs.
  split; [|split; [|split; [|split]]].
  - rewrite Hs. apply length_swap_index.
  - rewrite Hs, nth_swap_index by lia. reflexivity.
  - rewrite Hs, nth_swap_index by assumption. unfold swap_axis.
    rewrite Nat.eqb_refl. now destruct (k =? 0) eqn:E; [apply Nat.eqb_eq in E; subst|].
  - intros i rest Hi. rewrite Hs in Hi.
    exists (swap_index (length (shape X)) k (i :: rest)).
    assert (Hl : length (i :: rest) = length (shape X)).
    { rewrite (inb_length Hi). apply length_swap_index. }
    split; [|split].
    + pose proof (inb_swap_index Hk (length_swap_index _ k (shape X)) Hi) as H.
      rewrite swap_index_involutive in H by (exact Hk || reflexivity).
      exact H.
    + rewrite nth_swap_index by assumption. unfold swap_axis.
      rewrite Nat.eqb_refl.
      now destruct (k =? 0) eqn:E; [apply Nat.eqb_eq in E; subst|].
    + now rewrite permute_new_axis_list_get.
  - split.
    + rewrite shape_permute_new_axis_list with (n := length (shape X)) (k := k).
      * rewrite Hs. now apply swap_index_involutive.
      * exact Hk.
      * unfold ndim. rewrite Hs. apply length_swap_index.
    + intros idx Hi.
      rewrite shape_permute_new_axis_list
        with (n := length (shape X)) (k := k) in Hi;
        [| exact Hk | unfold ndim; rewrite Hs; apply length_swap_index].
      rewrite Hs, swap_index_involutive in Hi by (exact Hk || reflexivity).
      rewrite !permute_new_axis_list_get by exact Hk.
      rewrite swap_index_involutive; [reflexivity | exact Hk |].
      now apply inb_length.
Qed.

Lemma permute_to_axis_zero_round_trip_witness :
  1 < ndim scenario_X2 /\
  tensor_eq (permute (fst (_permute_to_axis_zero scenario_X2 1))
                     (snd (_permute_to_axis_zero scenario_X2 1)))
            scenario_X2.
Proof.
  assert (H : 1 < ndim scenario_X2) by (unfold ndim; simpl; lia).
  split; [exact H|].
  destruct (@permute_to_axis_zero_round_trip scenario_X2 1 H)
    as (_ & _ & _ & _ & E).
  exact E.
Defined.

Lemma Qcompare_inject_Z (a b : Z) :
  Qcompare (inject_Z a) (inject_Z b) = Z.compare a b.
Proof. unfold Qcompare. simpl. now rewrite !Z.mul_1_r. Qed.

Lemma Qclamp_inject_Z (r lo hi : Z) :
  Qclamp (inject_Z r) lo hi = inject_Z (Zclamp r lo hi).
Proof.
  unfold Qclamp, Zclamp, Qmax, Qmin, GenericMinMax.gmax, GenericMinMax.gmin,
    Z.max, Z.min.
  rewrite Qcompare_inject_Z.
  destruct (r ?= lo)%Z; rewrite Qcompare_inject_Z;
    match goal with |- context [(?a ?= ?b)%Z] => destruct (a ?= b)%Z end;
    reflexivity.
Qed.



(** [_quantize_vectorized] on vectors of scales and zero-points quantizes
    every slice along the channel axis as [_quantize] does with the scale
    and the zero-point of that channel. *)
Theorem quantize_vectorized_slices
        (X scale zp : tensor Q) (k : nat) (q_min q_max : Z) (b : bool) (c : nat) :
  k < ndim X ->
  shape scale = [nth k (shape X) 0] -> shape zp = [nth k (shape X) 0] ->
  c < nth k (shape X) 0 ->
  tensor_eq (select k c (_quantize_vectorized X k scale zp q_min q_max b))
            (_quantize (select k c X) (select 0 c scale) (select 0 c zp)
                       q_min q_max b).
Proof.
  intros Hk Hsc Hzp Hc. unfold ndim in Hk.
  set (s := shape X) in *.
  assert (Hx : full s X (get X)) by now apply full_intro.
  assert (Hs : bc s (reshape scale (upd k (nth k s 0) (repeat 1 (length s))))
                  (fun idx => get scale [nth k idx 0]))
    by now apply bc_reshape_axis_mask.
  assert (Hz : bc s (reshape zp (upd k (nth k s 0) (repeat 1 (length s))))
                  (fun idx => get zp [nth k idx 0]))
    by now apply bc_reshape_axis_mask.
  assert (FV : full s (_quantize_vectorized X k scale zp q_min q_max b)
                    (fun idx =>
                       if b
                       then Qclamp (code (get X idx) (get scale [nth k idx 0])
                                         (get zp [nth k idx 0])) q_min q_max
                       else code (get X idx) (get scale [nth k idx 0])
                                 (get zp [nth k idx 0]))).
  { unfold _quantize_vectorized, round, clamp, py_float, ndim. cbv zeta.
    fold s. destruct b; (eapply full_ext; [solve_full | reflexivity]). }
  set (X_c := select k c X).
  assert (Hxc : full (shape X_c) X_c (get X_c)) by now apply full_intro.
  pose proof (@quantize_full (shape X_c) q_min q_max X_c (select 0 c scale)
                (select 0 c zp) _ _ _ b Hxc
                (@bc_select0_vector _ (shape X_c) scale _ c Hsc)
                (@bc_select0_vector _ (shape X_c) zp _ c Hzp)) as FQ.
  split.
  - rewrite (full_shape FQ). cbn [select shape]. now rewrite (full_shape FV).
  - intros idx Hi. cbn [select shape] in Hi. rewrite (full_shape FV) in Hi.
    assert (Hi' : inb (shape X_c) idx) by exact Hi.
    rewrite (full_get FQ Hi'). cbn [select get].
    rewrite (full_get FV (@inb_insert_at s idx k c Hk Hc Hi)).
    rewrite (@slice_index_channel s idx k c Hk Hi). reflexivity.
Qed.

Lemma quantize_vectorized_slices_witness :
  0 < ndim scenario_X2 /\
  shape scenario_scale2 = [nth 0 (shape scenario_X2) 0] /\
  shape scenario_zero_point2 = [nth 0 (shape scenario_X2) 0] /\
  1 < nth 0 (shape scenario_X2) 0 /\
  tensor_eq
    (select 0 1 (_quantize_vectorized scenario_X2 0 scenario_scale2
                                      scenario_zero_point2 0 3 true))
    (_quantize (select 0 1 scenario_X2) (select 0 1 scenario_scale2)
               (select 0 1 scenario_zero_point2) 0 3 true).
Proof.
  assert (H : 0 < ndim scenario_X2) by (unfold ndim; simpl; lia).
  assert (H1 : 1 < nth 0 (shape scenario_X2) 0) by (simpl; lia).
  split; [exact H|]. split; [reflexivity|]. split; [reflexivity|].
  split; [exact H1|].
  exact (@quantize_vectorized_slices scenario_X2 scenario_scale2
           scenario_zero_point2 0 0 3 true 1 H eq_refl eq_refl H1).
Defined.

(** *** The zero-point the kernels use *)

Local Open Scope Q_scope.

Lemma effective_zero_point_integer (z q_min q_max : Z) :
  (q_min <= z <= q_max)%Z ->
  effective_zero_point (inject_Z z) q_min q_max
  = if (0 <=? z)%Z then z else Z.min (z + 1) q_max.
Proof.
  intros [H1 H2]. unfold effective_zero_point.
  assert (B1 : inject_Z q_min <= inject_Z z) by (now rewrite <- Zle_Qle).
  assert (B2 : inject_Z z <= inject_Z q_max) by (now rewrite <- Zle_Qle).
  destruct (Z.eq_dec z q_max) as [E|N].
  - subst. rewrite Qclamp_above by (lra || lia). rewrite Qtrunc_Z.
    destruct (0 <=? q_max)%Z; lia.
  - assert (Hlt : (z + 1 <= q_max)%Z) by lia.
    assert (B3 : inject_Z (z + 1) <= inject_Z q_max) by (now rewrite <- Zle_Qle).
    rewrite inject_Z_plus in B3. change (inject_Z 1) with 1 in B3.
    rewrite Qclamp_in by lra.
    destruct (0 <=? z)%Z eqn:P.
    + apply Z.leb_le in P.
      assert (0 <= inject_Z z) by (change 0 with (inject_Z 0); now rewrite <- Zle_Qle).
      rewrite Qtrunc_nonneg by lra.
      apply Z.le_antisymm.
      * assert (L : inject_Z (Qfloor (inject_Z z + (1 # 2))) <= inject_Z z + (1 # 2))
          by apply Qfloor_le.
        assert (L' : inject_Z (Qfloor (inject_Z z + (1 # 2))) < inject_Z (z + 1)).
        { rewrite inject_Z_plus. change (inject_Z 1) with 1. lra. }
        rewrite <- Zlt_Qlt in L'. lia.
      * rewrite <- (Qfloor_Z z) at 1. apply Qfloor_resp_le. lra.
    + apply Z.leb_gt in P.
      assert (inject_Z (z + 1) <= 0)
        by (change 0 with (inject_Z 0); rewrite <- Zle_Qle; lia).
      rewrite inject_Z_plus in H. change (inject_Z 1) with 1 in H.
      rewrite Qtrunc_nonpos by lra.
      rewrite Z.min_l by assumption.
      apply Z.le_antisymm.
      * rewrite <- (Qceiling_Z (z + 1)). apply Qceiling_resp_le.
        rewrite inject_Z_plus. change (inject_Z 1) with 1. lra.
      * assert (L : inject_Z z + (1 # 2) <= inject_Z (Qceiling (inject_Z z + (1 # 2))))
          by apply Qle_ceiling.
        assert (L' : inject_Z z < inject_Z (Qceiling (inject_Z z + (1 # 2))))
          by lra.
        rewrite <- Zlt_Qlt in L'. lia.
Qed.

Local Open Scope nat_scope.
Local Open Scope tensor_scope.
Local Open Scope Q_scope.

Lemma Qceiling_comp' (x y : Q) : x == y -> Qceiling x = Qceiling y.
Proof. intros H. unfold Qceiling. now rewrite (Qfloor_comp _ _ (Qopp_comp _ _ H)). Qed.

Lemma Qtrunc_comp (x y : Q) : x == y -> Qtrunc x = Qtrunc y.
Proof.
  intros H. destruct (Qlt_le_dec x 0) as [N|P].
  - rewrite !Qtrunc_nonpos by lra. now apply Qceiling_comp'.
  - rewrite !Qtrunc_nonneg by lra. now apply Qfloor_comp.
Qed.

Lemma Qclamp_comp (x y : Q) (lo hi : Z) :
  x == y -> Qclamp x lo hi == Qclamp y lo hi.
Proof.
  intros H. unfold Qclamp. now rewrite H.
Qed.

Lemma effective_zero_point_comp (x y : Q) (q_min q_max : Z) :
  x == y -> effective_zero_point x q_min q_max = effective_zero_point y q_min q_max.
Proof.
  intros H. unfold effective_zero_point. apply Qtrunc_comp, Qclamp_comp.
  now rewrite H.
Qed.





Local Open Scope nat_scope.
Local Open Scope tensor_scope.

Lemma not_in_range_not_boundary (xq : Q) (q_min q_max : Z) :
  (q_min <= q_max)%Z ->
  Qle_bool (inject_Z q_min) xq && Qle_bool xq (inject_Z q_max) = false ->
  Qeq_bool xq (inject_Z q_min) || Qeq_bool xq (inject_Z q_max) = false.
Proof.
  intros H N.
  assert (B : (inject_Z q_min <= inject_Z q_max)%Q) by (now rewrite <- Zle_Qle).
  destruct (Qeq_bool xq (inject_Z q_min)) eqn:E1.
  - apply Qeq_bool_iff in E1. exfalso.
    assert (H1 : Qle_bool (inject_Z q_min) xq = true)
      by (apply Qle_bool_iff; rewrite E1; apply Qle_refl).
    assert (H2 : Qle_bool xq (inject_Z q_max) = true)
      by (apply Qle_bool_iff; rewrite E1; exact B).
    rewrite H1, H2 in N. discriminate.
  - destruct (Qeq_bool xq (inject_Z q_max)) eqn:E2; [|reflexivity].
    apply Qeq_bool_iff in E2. exfalso.
    assert (H1 : Qle_bool (inject_Z q_min) xq = true)
      by (apply Qle_bool_iff; rewrite E2; exact B).
    assert (H2 : Qle_bool xq (inject_Z q_max) = true)
      by (apply Qle_bool_iff; rewrite E2; apply Qle_refl).
    rewrite H1, H2 in N. discriminate.
Qed.

Lemma zero_point_grad_elem_masked (dy xq scale : Q) (q_min q_max : Z) :
  (q_min < q_max)%Z ->
  (zero_point_grad_elem (X_grad_elem dy xq q_min q_max)
                        (Qclamp xq q_min q_max) scale q_min q_max
   == if Qeq_bool xq (inject_Z q_min) || Qeq_bool xq (inject_Z q_max)
      then - scale * dy else 0)%Q.
Proof.
  intros H.
  destruct (Qle_bool (inject_Z q_min) xq && Qle_bool xq (inject_Z q_max))
           eqn:R.
  - apply andb_prop in R. destruct R as [R1 R2].
    apply Qle_bool_iff in R1. apply Qle_bool_iff in R2.
    rewrite Qclamp_in, X_grad_elem_in by assumption.
    rewrite zero_point_grad_elem_regime by assumption.
    unfold spec_zero_point_regime.
    destruct (Qeq_bool xq (inject_Z q_min) || Qeq_bool xq (inject_Z q_max));
      ring.
  - rewrite not_in_range_not_boundary by (assumption || lia).
    unfold X_grad_elem. rewrite R. unfold zero_point_grad_elem. ring.
Qed.

Lemma scale_grad_elem_masked (dy x x_fq xq scale zp : Q) (q_min q_max : Z) :
  (q_min < q_max)%Z ->
  (scale_grad_elem (X_grad_elem dy xq q_min q_max) x x_fq
                   (Qclamp xq q_min q_max) scale zp q_min q_max
   == if Qle_bool (inject_Z q_min) xq && Qle_bool xq (inject_Z q_max)
      then spec_scale_regime xq x x_fq scale zp q_min q_max * dy else 0)%Q.
Proof.
  intros H.
  destruct (Qle_bool (inject_Z q_min) xq && Qle_bool xq (inject_Z q_max))
           eqn:R.
  - apply andb_prop in R. destruct R as [R1 R2].
    apply Qle_bool_iff in R1. apply Qle_bool_iff in R2.
    rewrite Qclamp_in, X_grad_elem_in by assumption.
    now apply scale_grad_elem_regime.
  - unfold X_grad_elem. rewrite R. unfold scale_grad_elem. ring.
Qed.



(** [grad_factor] multiplies the gradients of the scale and of the
    zero-point and nothing else: with any [grad_factor] they are
    [grad_factor] times what they are with factor 1, while the output and
    [dX] are the same. *)
Theorem per_tensor_grad_factor_scales_parameter_gradients
        (X scale zero_point dY : tensor Q) (q_min q_max : Z) (grad_factor : Q) :
  scalar_like (shape X) scale -> shape dY = shape X ->
  let fw g := PT.forward X scale zero_point q_min q_max g in
  let bw g := PT.backward (fst (fw g)) dY in
  tensor_eq (snd (fw grad_factor)) (snd (fw 1%Q)) /\
  tensor_eq (fst (fst (bw grad_factor))) (fst (fst (bw 1%Q))) /\
  (get (snd (fst (bw grad_factor))) [0%nat]
   == grad_factor * get (snd (fst (bw 1%Q))) [0%nat])%Q /\
  (get (snd (bw grad_factor)) [0%nat]
   == grad_factor * get (snd (bw 1%Q)) [0%nat])%Q.
Proof.
  intros Hs Hy. cbv zeta.
  pose proof (fun g => per_tensor_forward_full X scale zero_point q_min q_max g)
    as Ff.
  pose proof (fun g => @per_tensor_grad_X_full X scale zero_point dY q_min
                         q_max g Hs Hy) as Fx.
  pose proof (fun g => proj2 (@per_tensor_grad_scale X scale zero_point dY
                                q_min q_max g Hs Hy)) as Gs.
  pose proof (fun g => proj2 (@per_tensor_grad_zp X scale zero_point dY
                                q_min q_max g Hs Hy)) as Gz.
  split; [|split; [|split]].
  - split.
    + now rewrite (full_shape (Ff grad_factor)), (full_shape (Ff 1%Q)).
    + intros idx Hi. rewrite (full_shape (Ff grad_factor)) in Hi.
      now rewrite (full_get (Ff grad_factor) Hi), (full_get (Ff 1%Q) Hi).
  - split.
    + now rewrite (full_shape (Fx grad_factor)), (full_shape (Fx 1%Q)).
    + intros idx Hi. rewrite (full_shape (Fx grad_factor)) in Hi.
      now rewrite (full_get (Fx grad_factor) Hi), (full_get (Fx 1%Q) Hi).
  - rewrite (Gs grad_factor), (Gs 1%Q). ring.
  - rewrite (Gz grad_factor), (Gz 1%Q). ring.
Qed.

Lemma per_tensor_grad_factor_scales_parameter_gradients_witness :
  scalar_like (shape scenario_X) scenario_scale /\
  shape scenario_dY = shape scenario_X /\
  (get (snd (PT.backward
               (fst (PT.forward scenario_X scenario_scale
                                scenario_zero_point 0 1 (1 # 4)))
               scenario_dY)) [0%nat]
   == (1 # 4)
      * get (snd (PT.backward
                    (fst (PT.forward scenario_X scenario_scale
                                     scenario_zero_point 0 1 1))
                    scenario_dY)) [0%nat])%Q.
Proof.
  assert (H : scalar_like (shape scenario_X) scenario_scale).
  { exists 1%nat. split; [reflexivity | simpl; lia]. }
  split; [exact H|]. split; [reflexivity|].
  destruct (@per_tensor_grad_factor_scales_parameter_gradients
              scenario_X scenario_scale scenario_zero_point scenario_dY
              0 1 (1 # 4) H eq_refl) as (_ & _ & _ & E).
  exact E.
Defined.

(* ================================================================== *)
(** ** The module [_LearnableFakeQuantize] *)
(* ================================================================== *)

(** Each of [enable_param_learning], [enable_static_estimate] and
    [enable_static_observation] sets the three flags and the
    [requires_grad] of both parameters to fixed values, whatever they were,
    so the mode of the module is that of the last call; none of them
    touches the quantization range, the parameters' values, the scheme or
    the axis. *)
Theorem enable_methods_set_the_mode (self : LFQ.t) :
  let flags m := (LFQ.learning_enabled m, LFQ.fake_quant_enabled m,
                  LFQ.static_enabled m, LFQ.scale_requires_grad m,
                  LFQ.zero_point_requires_grad m) in
  let rest m := (LFQ.quant_min m, LFQ.quant_max m, LFQ.use_grad_scaling m,
                 LFQ.scale m, LFQ.zero_point m, LFQ.qscheme m, LFQ.ch_axis m,
                 LFQ.activation_post_process m) in
  flags (LFQ.enable_param_learning self) = (1, 1, 0, true, true)%Z /\
  flags (LFQ.enable_static_estimate self) = (0, 1, 1, false, false)%Z /\
  flags (LFQ.enable_static_observation self) = (0, 0, 1, false, false)%Z /\
  rest (LFQ.enable_param_learning self) = rest self /\
  rest (LFQ.enable_static_estimate self) = rest self /\
  rest (LFQ.enable_static_observation self) = rest self /\
  forall f g,
    In f [LFQ.enable_param_learning; LFQ.enable_static_estimate;
          LFQ.enable_static_observation] ->
    In g [LFQ.enable_param_learning; LFQ.enable_static_estimate;
          LFQ.enable_static_observation] ->
    f (g self) = f self.
Proof.
  cbv zeta. repeat split.
  intros f g Hf Hg. simpl in Hf, Hg.
  destruct Hf as [<-|[<-|[<-|[]]]]; destruct Hg as [<-|[<-|[<-|[]]]];
    reflexivity.
Qed.

Lemma copy_shape (dst src r : tensor Q) : copy_ dst src = Ok r -> shape r = shape dst.
Proof.
  unfold copy_. destruct (expandable_r _ _); [|discriminate].
  intros E. injection E as <-. reflexivity.
Qed.

(** What a successful [forward] can have done to the module. *)
Lemma forward_module (self self' : LFQ.t) (qparams : tensor Q * tensor Q)
      (X Y : tensor Q) :
  LFQ.forward self qparams X = Ok (self', Y) ->
  self' = self \/
  exists new_scale new_zero_point,
    LFQ.static_enabled self = 1%Z /\
    copy_ (LFQ.scale self) (fst qparams) = Ok new_scale /\
    copy_ (LFQ.zero_point self) (snd qparams) = Ok new_zero_point /\
    self' = LFQ.set_qparams self new_scale new_zero_point.
Proof.
  destruct qparams as [qs qz]. unfold LFQ.forward.
  destruct (LFQ.static_enabled self =? 1)%Z eqn:S.
  - destruct (copy_ (LFQ.scale self) qs) as [ns|] eqn:C1; [|discriminate].
    destruct (copy_ (LFQ.zero_point self) qz) as [nz|] eqn:C2; [|discriminate].
    intros H. right. exists ns, nz. apply Z.eqb_eq in S.
    split; [exact S|]. split; [exact C1|]. split; [exact C2|].
    destruct (LFQ.fake_quant_enabled _ =? 1)%Z;
      [destruct (LFQ.learning_enabled _ =? 1)%Z;
       [destruct (LFQ.use_grad_scaling _); [discriminate|]|];
       destruct (LFQ.is_per_channel _)|];
      injection H as <- _; reflexivity.
  - intros H. left.
    destruct (LFQ.fake_quant_enabled _ =? 1)%Z;
      [destruct (LFQ.learning_enabled _ =? 1)%Z;
       [destruct (LFQ.use_grad_scaling _); [discriminate|]|];
       destruct (LFQ.is_per_channel _)|];
      injection H as <- _; reflexivity.
Qed.

(** Every module built by [__init__] and then driven through the toggles
    and [forward] keeps: a non-empty quantization range within the range of
    the observer's dtype; one-dimensional parameters of one common,
    positive length; flags that are 0 or 1; the same [requires_grad] on
    both parameters, which is set whenever learning is enabled; and the
    scheme of its observer. *)
Theorem module_invariant (self : LFQ.t) :
  reachable self ->
  (LFQ.quant_min self < LFQ.quant_max self)%Z /\
  (dtype_min (LFQ.activation_post_process self) <= LFQ.quant_min self)%Z /\
  (LFQ.quant_max self <= dtype_max (LFQ.activation_post_process self))%Z /\
  (exists n, 0 < n /\ shape (LFQ.scale self) = [n] /\
             shape (LFQ.zero_point self) = [n]) /\
  (LFQ.fake_quant_enabled self = 0 \/ LFQ.fake_quant_enabled self = 1)%Z /\
  (LFQ.static_enabled self = 0 \/ LFQ.static_enabled self = 1)%Z /\
  (LFQ.learning_enabled self = 0 \/ LFQ.learning_enabled self = 1)%Z /\
  LFQ.scale_requires_grad self = LFQ.zero_point_requires_grad self /\
  (LFQ.learning_enabled self = 1%Z -> LFQ.scale_requires_grad self = true) /\
  LFQ.qscheme self = observer_qscheme (LFQ.activation_post_process self).
Proof.
  induction 1 as [obs qmin qmax sc zp len ugs self Hinit
                 | self en _ IH | self en _ IH | self en _ IH
                 | self qp X self' Y _ IH Hf].
  - unfold LFQ.__init__ in Hinit.
    destruct (qmin <? qmax)%Z eqn:E1; [|discriminate].
    destruct ((len =? -1)%Z || (0 <? len)%Z) eqn:E2; [|discriminate].
    destruct (dtype_min obs <=? qmin)%Z eqn:E3; [|discriminate].
    destruct (qmax <=? dtype_max obs)%Z eqn:E4; [|discriminate].
    simpl in Hinit. injection Hinit as <-. simpl.
    apply Z.ltb_lt in E1. apply Z.leb_le in E3. apply Z.leb_le in E4.
    repeat split; auto.
    exists (if (len =? -1)%Z then 1 else Z.to_nat len).
    rewrite !repeat_length. repeat split.
    destruct (len =? -1)%Z eqn:E5; [lia|].
    simpl in E2. apply Z.ltb_lt in E2. lia.
  - destruct IH as (H1 & H2 & H3 & H4 & H5 & H6 & H7 & H8 & H9 & H10).
    simpl. repeat split; auto. destruct en; auto.
  - destruct IH as (H1 & H2 & H3 & H4 & H5 & H6 & H7 & H8 & H9 & H10).
    simpl. repeat split; auto; destruct en; simpl; auto. discriminate.
  - destruct IH as (H1 & H2 & H3 & H4 & H5 & H6 & H7 & H8 & H9 & H10).
    simpl. repeat split; auto. destruct en; auto.
  - destruct (forward_module _ _ _ Hf) as [->|(ns & nz & _ & C1 & C2 & ->)];
      [exact IH|].
    destruct IH as (H1 & H2 & H3 & (n & Hn & S1 & S2) & H5 & H6 & H7 & H8 & H9
                    & H10).
    simpl. repeat split; auto.
    exists n. rewrite (copy_shape _ _ C1), (copy_shape _ _ C2). auto.
Qed.

Lemma scenario_module_reachable : reachable scenario_module.
Proof.
  apply (reach_init scenario_observer 0 255 1 0 (-1) false). reflexivity.
Qed.

Lemma module_invariant_witness :
  reachable (LFQ.enable_param_learning scenario_module) /\
  (LFQ.quant_min (LFQ.enable_param_learning scenario_module)
   < LFQ.quant_max (LFQ.enable_param_learning scenario_module))%Z.
Proof.
  assert (R : reachable (LFQ.enable_param_learning scenario_module)).
  { unfold LFQ.enable_param_learning.
    apply reach_toggle_observer_update, reach_toggle_fake_quant,
      reach_toggle_qparam_learning.
    apply (reach_init scenario_observer 0 255 1 0 (-1) false). reflexivity. }
  split; [exact R|].
  destruct (module_invariant R) as [E _]. exact E.
Defined.

(** With fake quantization switched off (as after
    [enable_static_observation]) [forward] returns its input unchanged; it
    leaves the module as it is when the observer update is off as well, and
    otherwise can only fail in copying the observer's estimates into the
    parameters. *)
Theorem forward_without_fake_quant_returns_input
        (self : LFQ.t) (qparams : tensor Q * tensor Q) (X : tensor Q) :
  LFQ.fake_quant_enabled self <> 1%Z ->
  (forall self' Y, LFQ.forward self qparams X = Ok (self', Y) -> Y = X) /\
  (LFQ.static_enabled self <> 1%Z -> LFQ.forward self qparams X = Ok (self, X)) /\
  (forall e, LFQ.forward self qparams X = Raise e ->
             e = RuntimeError /\ LFQ.static_enabled self = 1%Z).
Proof.
  intros Hf. apply Z.eqb_neq in Hf.
  destruct qparams as [qs qz]. unfold LFQ.forward.
  destruct (LFQ.static_enabled self =? 1)%Z eqn:S.
  - apply Z.eqb_eq in S. unfold copy_.
    destruct (expandable_r (rev (shape (LFQ.scale self))) (rev (shape qs)));
      [destruct (expandable_r (rev (shape (LFQ.zero_point self)))
                              (rev (shape qz)))|];
      cbn [LFQ.set_qparams LFQ.fake_quant_enabled]; rewrite ?Hf;
        (split; [|split]); try congruence; intros;
          try (split; congruence); congruence.
  - rewrite Hf. split; [|split]; congruence.
Qed.

Lemma forward_without_fake_quant_returns_input_witness :
  LFQ.fake_quant_enabled (LFQ.enable_static_observation scenario_module)
  <> 1%Z /\
  forall self' Y,
    LFQ.forward (LFQ.enable_static_observation scenario_module)
                (scenario_scale, scenario_zero_point) scenario_X
    = Ok (self', Y) -> Y = scenario_X.
Proof.
  assert (H : LFQ.fake_quant_enabled
                (LFQ.enable_static_observation scenario_module) <> 1%Z)
    by (simpl; lia).
  split; [exact H|].
  destruct (@forward_without_fake_quant_returns_input
              (LFQ.enable_static_observation scenario_module)
              (scenario_scale, scenario_zero_point) scenario_X H) as [E _].
  exact E.
Defined.

(** A module built with [use_grad_scaling] cannot run in learning mode:
    after [enable_param_learning], [forward] reads [self.weight], which the
    class never sets, and raises [AttributeError] for every input. *)
Theorem learning_with_grad_scaling_raises
        (self : LFQ.t) (qparams : tensor Q * tensor Q) (X : tensor Q) :
  LFQ.use_grad_scaling self = true ->
  LFQ.forward (LFQ.enable_param_learning self) qparams X = Raise AttributeError.
Proof.
  intros H. destruct qparams as [qs qz]. unfold LFQ.forward. simpl.
  now rewrite H.
Qed.

Lemma learning_with_grad_scaling_raises_witness :
  let self :=
    LFQ.mk 0 255 true (of_list [1%Q]) true (of_list [0%Q]) true
           scenario_observer per_tensor_affine (-1) 1 1 0 in
  LFQ.use_grad_scaling self = true /\
  LFQ.forward (LFQ.enable_param_learning self)
              (scenario_scale, scenario_zero_point) scenario_X
  = Raise AttributeError.
Proof.
  intros self. split; [reflexivity|].
  exact (@learning_with_grad_scaling_raises self
           (scenario_scale, scenario_zero_point) scenario_X eq_refl).
Defined.





(* ================================================================== *)
(** ** The two routes to the per-channel codes, and the constructor *)

(** [_calculate_X_grad_per_channel] finds the codes by moving the channel
    axis to the front, looping over the channels and moving the axis back,
    while [backward] finds the clamped codes by broadcasting reshaped
    vectors.  The two routes agree: the per-channel input gradient is the
    per-tensor mask applied to the unclamped codes of
    [_quantize_vectorized]. *)
Theorem channel_loop_agrees_with_broadcast
        (dY X scale zp : tensor Q) (k : nat) (q_min q_max : Z) :
  k < ndim X ->
  shape scale = [nth k (shape X) 0] -> shape zp = [nth k (shape X) 0] ->
  shape dY = shape X ->
  tensor_eq
    (_calculate_X_grad_per_channel dY X scale zp k q_min q_max)
    (_calculate_X_grad_per_tensor
       dY X (_quantize_vectorized X k scale zp q_min q_max false)
       scale zp q_min q_max).
Proof.
  intros Hk Hsc Hzp Hy. unfold ndim in Hk.
  pose proof (@calculate_X_grad_per_channel_full X scale zp k q_min q_max
                Hk Hsc Hzp dY Hy) as FC.
  set (s := shape X) in *.
  assert (Hx : full s X (get X)) by now apply full_intro.
  assert (Hd : full s dY (get dY)) by now apply full_intro.
  assert (Hs : bc s (reshape scale (upd k (nth k s 0) (repeat 1 (length s))))
                  (fun idx => get scale [nth k idx 0]))
    by now apply bc_reshape_axis_mask.
  assert (Hz : bc s (reshape zp (upd k (nth k s 0) (repeat 1 (length s))))
                  (fun idx => get zp [nth k idx 0]))
    by now apply bc_reshape_axis_mask.
  assert (FV : full s (_quantize_vectorized X k scale zp q_min q_max false)
                    (fun idx => code (get X idx) (get scale [nth k idx 0])
                                     (get zp [nth k idx 0]))).
  { unfold _quantize_vectorized, round, py_float, ndim. cbv zeta.
    fold s. eapply full_ext; [solve_full | reflexivity]. }
  pose proof (@calculate_X_grad_per_tensor_full s q_min q_max dY X _ scale zp
                _ _ Hd FV) as FT.
  split.
  - now rewrite (full_shape FC), (full_shape FT).
  - intros idx Hi. rewrite (full_shape FC) in Hi.
    now rewrite (full_get FC Hi), (full_get FT Hi).
Qed.

Lemma channel_loop_agrees_with_broadcast_witness :
  1 < ndim scenario_X2 /\
  shape (of_list [1 # 2; 1 # 3; 1%Q]) = [nth 1 (shape scenario_X2) 0] /\
  shape (of_list [0%Q; 1%Q; 2%Q]) = [nth 1 (shape scenario_X2) 0] /\
  shape scenario_dY2 = shape scenario_X2 /\
  tensor_eq
    (_calculate_X_grad_per_channel
       scenario_dY2 scenario_X2 (of_list [1 # 2; 1 # 3; 1%Q])
       (of_list [0%Q; 1%Q; 2%Q]) 1 0 3)
    (_calculate_X_grad_per_tensor
       scenario_dY2 scenario_X2
       (_quantize_vectorized scenario_X2 1 (of_list [1 # 2; 1 # 3; 1%Q])
                             (of_list [0%Q; 1%Q; 2%Q]) 0 3 false)
       (of_list [1 # 2; 1 # 3; 1%Q]) (of_list [0%Q; 1%Q; 2%Q]) 0 3).
Proof.
  assert (H : 1 < ndim scenario_X2) by (unfold ndim; simpl; lia).
  split; [exact H|]. split; [reflexivity|]. split; [reflexivity|].
  split; [reflexivity|].
  exact (@channel_loop_agrees_with_broadcast
           scenario_dY2 scenario_X2 (of_list [1 # 2; 1 # 3; 1%Q])
           (of_list [0%Q; 1%Q; 2%Q]) 1 0 3 H eq_refl eq_refl eq_refl).
Defined.

(** [__init__] raises exactly when one of its four assertions fails; the
    module it builds otherwise is in the static-estimate mode (fake
    quantization on, observer update on, learning off), with parameters
    that hold the given scale and zero-point in every entry and still
    require grad, so that it differs from its own [enable_static_estimate]
    by [requires_grad] only. *)
Theorem init_checks_and_initial_mode
        (observer : observer_t) (quant_min quant_max : Z) (scale zero_point : Q)
        (channel_len : Z) (use_grad_scaling : bool) :
  let built := LFQ.__init__ observer quant_min quant_max scale zero_point
                            channel_len use_grad_scaling in
  let valid := (quant_min < quant_max)%Z /\
               (channel_len = (-1)%Z \/ (0 < channel_len)%Z) /\
               (dtype_min observer <= quant_min)%Z /\
               (quant_max <= dtype_max observer)%Z in
  (valid -> exists self, built = Ok self) /\
  (~ valid -> built = Raise AssertionError) /\
  forall self, built = Ok self ->
    valid /\
    (LFQ.learning_enabled self, LFQ.fake_quant_enabled self,
     LFQ.static_enabled self) = (0, 1, 1)%Z /\
    LFQ.scale_requires_grad self = true /\
    LFQ.zero_point_requires_grad self = true /\
    LFQ.toggle_qparam_learning self false = LFQ.enable_static_estimate self /\
    let n := if (channel_len =? -1)%Z then 1 else Z.to_nat channel_len in
    shape (LFQ.scale self) = [n] /\ shape (LFQ.zero_point self) = [n] /\
    forall i, i < n -> get (LFQ.scale self) [i] = scale /\
                       get (LFQ.zero_point self) [i] = zero_point.
Proof.
  cbv zeta. unfold LFQ.__init__.
  destruct (quant_min <? quant_max)%Z eqn:E1;
    [apply Z.ltb_lt in E1 | apply Z.ltb_ge in E1];
    cbn [negb];
    [|split; [intros (? & _); lia | split; [reflexivity | discriminate]]].
  destruct ((channel_len =? -1)%Z || (0 <? channel_len)%Z) eqn:E2; cbn [negb].
  2:{ apply orb_false_iff in E2. destruct E2 as [A B].
      apply Z.eqb_neq in A. apply Z.ltb_ge in B.
      split; [intros (_ & [?|?] & _); lia
             | split; [reflexivity | discriminate]]. }
  apply orb_true_iff in E2. rewrite Z.eqb_eq, Z.ltb_lt in E2.
  destruct (dtype_min observer <=? quant_min)%Z eqn:E3;
    [apply Z.leb_le in E3 | apply Z.leb_gt in E3];
    cbn [negb];
    [|split; [intros (_ & _ & ? & _); lia
             | split; [reflexivity | discriminate]]].
  destruct (quant_max <=? dtype_max observer)%Z eqn:E4;
    [apply Z.leb_le in E4 | apply Z.leb_gt in E4];
    cbn [negb];
    [|split; [intros (_ & _ & _ & ?); lia
             | split; [reflexivity | discriminate]]].
  split; [intros _; eexists; reflexivity|].
  split; [intros N; exfalso; apply N; auto|].
  intros self E. injection E as <-.
  cbn -[of_list]. repeat split; auto.
  - simpl. now rewrite repeat_length.
  - simpl. now rewrite repeat_length.
  - simpl. apply nth_repeat_lt. assumption.
  - simpl. apply nth_repeat_lt. assumption.
Qed.

Lemma init_checks_and_initial_mode_witness :
  exists self, LFQ.__init__ scenario_observer 0 255 1 0 (-1) false = Ok self.
Proof.
  destruct (@init_checks_and_initial_mode
              scenario_observer 0 255 1 0 (-1) false) as [H _].
  apply H. simpl. lia.
Defined.

(* ================================================================== *)
(** ** Dictionaries and strings: lemmas *)

Lemma dict_set_keys (V : Type) (d : dict V) k v :
  keys (dict_set d k v) =
  if in_dec string_dec k (keys d) then keys d else keys d ++ [k].
Proof.
  unfold keys. induction d as [|[k' v'] d IH]; simpl.
  - reflexivity.
  - destruct (String.eqb k' k) eqn:E.
    + apply String.eqb_eq in E. subst k'. simpl.
      destruct (string_dec k k) as [e|N]; [|congruence].
      reflexivity.
    + apply String.eqb_neq in E. simpl. rewrite IH.
      destruct (string_dec k' k) as [E'|n]; [congruence|].
      destruct (in_dec string_dec k (map fst d)); reflexivity.
Qed.

Lemma dict_set_fresh (V : Type) (d : dict V) k v :
  ~ In k (keys d) -> dict_set d k v = d ++ [(k, v)].
Proof.
  induction d as [|[k' v'] d IH]; simpl; intros H.
  - reflexivity.
  - destruct (String.eqb k' k) eqn:E.
    + apply String.eqb_eq in E. tauto.
    + rewrite IH; tauto.
Qed.

Lemma dict_set_In (V : Type) (d : dict V) k v k0 v0 :
  In (k0, v0) (dict_set d k v) -> (k0, v0) = (k, v) \/ In (k0, v0) d.
Proof.
  induction d as [|[k' v'] d IH]; simpl.
  - intros [H|[]]. now left.
  - destruct (String.eqb k' k); simpl.
    + intros [H|H]; [now left | now right; right].
    + intros [H|H]; [now right; left | destruct (IH H); tauto].
Qed.

Lemma dict_set_NoDup (V : Type) (d : dict V) k v :
  NoDup (keys d) -> NoDup (keys (dict_set d k v)).
Proof.
  intros H. rewrite dict_set_keys.
  destruct (in_dec string_dec k (keys d)) as [_|N]; [assumption|].
  apply NoDup_app; [assumption | repeat constructor; intros [] |].
  intros a Ha [<-|[]]. contradiction.
Qed.

Lemma dict_set_has_key (V : Type) (d : dict V) k v k0 :
  In k0 (keys (dict_set d k v)) <-> k0 = k \/ In k0 (keys d).
Proof.
  rewrite dict_set_keys.
  destruct (in_dec string_dec k (keys d)) as [I|N].
  - split; [tauto | intros [->|H]; assumption].
  - rewrite in_app_iff. simpl. split; intros H; intuition congruence.
Qed.

Lemma chars_append (a b : string) :
  list_ascii_of_string (a ++ b) =
  list_ascii_of_string a ++ list_ascii_of_string b.
Proof.
  induction a as [|c a IH]; simpl; [reflexivity | now rewrite IH].
Qed.

Lemma chars_inj (a b : string) :
  list_ascii_of_string a = list_ascii_of_string b -> a = b.
Proof.
  intros H.
  rewrite <- (string_of_list_ascii_of_string a),
          <- (string_of_list_ascii_of_string b).
  now rewrite H.
Qed.

(** The two suffixes end in different letters, so a generated name tells
    both the suite's name and the start method. *)
Lemma generated_name_inj prefix t1 t2 m1 m2 :
  generated_name prefix t1 m1 = generated_name prefix t2 m2 ->
  __name__ t1 = __name__ t2 /\ m1 = m2.
Proof.
  unfold generated_name. intros H.
  apply (f_equal list_ascii_of_string) in H.
  rewrite !chars_append in H. apply app_inv_head in H.
  destruct m1, m2; simpl in H.
  - split; [|reflexivity]. apply chars_inj.
    now apply app_inv_tail in H.
  - exfalso.
    change (list_ascii_of_string (__name__ t1) ++
              ["W"; "i"; "t"; "h"; "F"; "o"; "r"] ++ ["k"] =
            list_ascii_of_string (__name__ t2) ++
              ["W"; "i"; "t"; "h"; "S"; "p"; "a"; "w"] ++ ["n"])%char in H.
    rewrite !app_assoc in H. apply app_inj_tail in H.
    destruct H as [_ H]. discriminate H.
  - exfalso.
    change (list_ascii_of_string (__name__ t1) ++
              ["W"; "i"; "t"; "h"; "S"; "p"; "a"; "w"] ++ ["n"] =
            list_ascii_of_string (__name__ t2) ++
              ["W"; "i"; "t"; "h"; "F"; "o"; "r"] ++ ["k"])%char in H.
    rewrite !app_assoc in H. apply app_inj_tail in H.
    destruct H as [_ H]. discriminate H.
  - split; [|reflexivity]. apply chars_inj.
    now apply app_inv_tail in H.
Qed.

(** The two loops assign the combinations one after the other. *)
Lemma generate_tests_assigns prefix mixin tests mp_type_filter module_name :
  generate_tests prefix mixin tests mp_type_filter module_name =
  fold_left (fun ret kv => dict_set ret (fst kv) (snd kv))
            (combinations prefix mixin tests mp_type_filter module_name) [].
Proof.
  unfold generate_tests, combinations. generalize (@nil (string * py_class)).
  induction tests as [|t tests IH]; intros d; simpl; [reflexivity|].
  rewrite fold_left_app, IH. f_equal.
  unfold selected, MultiProcess_members. simpl.
  destruct (flag_and FORK mp_type_filter), (flag_and SPAWN mp_type_filter);
    reflexivity.
Qed.

Lemma assign_all_In (V : Type) (l d : dict V) k v :
  In (k, v) (fold_left (fun ret kv => dict_set ret (fst kv) (snd kv)) l d) ->
  In (k, v) l \/ In (k, v) d.
Proof.
  revert d. induction l as [|[k' v'] l IH]; intros d; simpl.
  - now right.
  - intros H. destruct (IH _ H) as [H1|H1]; [now left; right|].
    apply dict_set_In in H1. simpl in H1. destruct H1 as [H1|H1].
    + left; left. now symmetry.
    + now right.
Qed.

Lemma assign_all_NoDup (V : Type) (l d : dict V) :
  NoDup (keys d) ->
  NoDup (keys (fold_left (fun ret kv => dict_set ret (fst kv) (snd kv)) l d)).
Proof.
  revert d. induction l as [|[k' v'] l IH]; intros d H; simpl.
  - assumption.
  - apply IH. now apply dict_set_NoDup.
Qed.

Lemma assign_all_keys (V : Type) (l d : dict V) k :
  In k (keys (fold_left (fun ret kv => dict_set ret (fst kv) (snd kv)) l d))
  <-> In k (keys l) \/ In k (keys d).
Proof.
  revert d. induction l as [|[k' v'] l IH]; intros d; simpl.
  - tauto.
  - rewrite IH, dict_set_has_key. simpl. intuition congruence.
Qed.

Lemma assign_all_fresh (V : Type) (l d : dict V) :
  NoDup (keys d ++ keys l) ->
  fold_left (fun ret kv => dict_set ret (fst kv) (snd kv)) l d = d ++ l.
Proof.
  revert d. induction l as [|[k v] l IH]; intros d H; simpl.
  - now rewrite app_nil_r.
  - simpl in H. pose proof (NoDup_remove _ _ _ H) as [H1 H2].
    rewrite dict_set_fresh.
    + rewrite IH.
      * now rewrite <- app_assoc.
      * unfold keys in *. rewrite map_app, <- app_assoc. exact H.
    + intros I. apply H2. apply in_or_app. now left.
Qed.

Lemma NoDup_map_injective (A B : Type) (f : A -> B) (l : list A) :
  (forall x y, In x l -> In y l -> f x = f y -> x = y) ->
  NoDup l -> NoDup (map f l).
Proof.
  induction l as [|a l IH]; simpl; intros Hf H; [constructor|].
  inversion H as [|? ? Hn Hd]; subst. constructor.
  - intros I. apply in_map_iff in I. destruct I as (x & E & Hx).
    apply Hn. rewrite <- (Hf x a); auto.
  - apply IH; auto.
Qed.

Lemma selected_NoDup mp_type_filter : NoDup (selected mp_type_filter).
Proof.
  apply NoDup_filter. repeat constructor; simpl; intuition discriminate.
Qed.

Lemma combinations_keys_NoDup prefix mixin tests mp_type_filter module_name :
  NoDup (map __name__ tests) ->
  NoDup (keys (combinations prefix mixin tests mp_type_filter module_name)).
Proof.
  unfold combinations, keys.
  induction tests as [|t tests IH]; simpl; intros H; [constructor|].
  inversion H as [|? ? Hn Hd]; subst.
  rewrite map_app, map_map. simpl.
  apply NoDup_app.
  - apply NoDup_map_injective; [|apply selected_NoDup].
    intros m1 m2 _ _ E. now apply generated_name_inj in E.
  - now apply IH.
  - intros k Hk Hk'. apply in_map_iff in Hk. destruct Hk as (m & <- & _).
    apply in_map_iff in Hk'. destruct Hk' as ([k' c'] & E & Hk').
    apply in_flat_map in Hk'. destruct Hk' as (t' & Ht' & Hk').
    apply in_map_iff in Hk'. destruct Hk' as (m' & E' & _).
    injection E' as <- <-. simpl in E.
    apply generated_name_inj in E. destruct E as [E _].
    apply Hn. rewrite <- E. now apply in_map.
Qed.

Lemma combinations_length prefix mixin tests mp_type_filter module_name :
  length (combinations prefix mixin tests mp_type_filter module_name) =
  length tests * length (selected mp_type_filter).
Proof.
  unfold combinations. induction tests as [|t tests IH]; simpl;
    [reflexivity|].
  now rewrite length_app, length_map, IH.
Qed.

(* ================================================================== *)
(** ** Test generation: properties *)

(** [generate_tests] returns nothing but what was asked for, and all of it:
    every entry is filed under the name of its class, which is the prefix,
    the name of one of the suites and the suffix of one selected start
    method; the class has that suite, the mixin and the start method's
    helper as its bases, in this order, and the caller's module; and every
    combination of a suite and a selected start method has its name among
    the keys. *)
Theorem generate_tests_sound_and_complete
        (prefix : string) (mixin : py_class) (tests : list py_class)
        (mp_type_filter : N) (module_name : string) :
  let ret := generate_tests prefix mixin tests mp_type_filter module_name in
  NoDup (keys ret) /\
  (forall name class_, In (name, class_) ret ->
     __name__ class_ = name /\ __module__ class_ = module_name /\
     exists test_class mp_type,
       In test_class tests /\ flag_and mp_type mp_type_filter = true /\
       name = (prefix ++ __name__ test_class ++
                 snd (MP_HELPERS_AND_SUFFIXES mp_type))%string /\
       __bases__ class_ =
         [test_class; mixin; fst (MP_HELPERS_AND_SUFFIXES mp_type)]) /\
  (forall test_class mp_type,
     In test_class tests -> flag_and mp_type mp_type_filter = true ->
     In (prefix ++ __name__ test_class ++
           snd (MP_HELPERS_AND_SUFFIXES mp_type))%string (keys ret)).
Proof.
  cbv zeta. rewrite generate_tests_assigns. split; [|split].
  - apply assign_all_NoDup. constructor.
  - intros name class_ H. apply assign_all_In in H.
    destruct H as [H|[]]. unfold combinations in H.
    apply in_flat_map in H. destruct H as (t & Ht & H).
    apply in_map_iff in H. destruct H as (m & E & Hm).
    injection E as <- <-. unfold selected in Hm.
    apply filter_In in Hm. destruct Hm as [_ Hm].
    split; [reflexivity|]. split; [reflexivity|].
    exists t, m. repeat split; assumption.
  - intros t m Ht Hm. apply assign_all_keys. left.
    unfold keys, combinations.
    apply in_map_iff.
    exists (generated_name prefix t m,
            generated_class prefix mixin t m module_name).
    split; [reflexivity|]. apply in_flat_map. exists t. split; [assumption|].
    apply in_map_iff. exists m. split; [reflexivity|].
    unfold selected. apply filter_In. split; [|assumption].
    destruct m; simpl; tauto.
Qed.

Lemma generate_tests_sound_and_complete_witness :
  In "TensorPipeRpcTestWithSpawn"%string
     (keys (generate_tests "TensorPipe" RpcAgentTestFixture
                           [Class "RpcTest" "rpc_test" []] 2 "m")).
Proof.
  destruct (@generate_tests_sound_and_complete
              "TensorPipe" RpcAgentTestFixture
              [Class "RpcTest" "rpc_test" []] 2 "m") as (_ & _ & H).
  apply (H (Class "RpcTest" "rpc_test" []) SPAWN).
  - simpl. now left.
  - reflexivity.
Defined.

(** When the suites have different names no entry is overwritten: the
    result is the list of all combinations, suite by suite and fork before
    spawn, so it has one class for every suite and every selected start
    method. *)
Theorem generate_tests_distinct_names
        (prefix : string) (mixin : py_class) (tests : list py_class)
        (mp_type_filter : N) (module_name : string) :
  NoDup (map __name__ tests) ->
  generate_tests prefix mixin tests mp_type_filter module_name =
    combinations prefix mixin tests mp_type_filter module_name /\
  length (generate_tests prefix mixin tests mp_type_filter module_name) =
    length tests * length (selected mp_type_filter).
Proof.
  intros H.
  assert (E : generate_tests prefix mixin tests mp_type_filter module_name =
              combinations prefix mixin tests mp_type_filter module_name).
  { rewrite generate_tests_assigns. rewrite assign_all_fresh; [reflexivity|].
    simpl. now apply combinations_keys_NoDup. }
  split; [exact E|]. rewrite E. apply combinations_length.
Qed.

Lemma generate_tests_distinct_names_witness :
  NoDup (map __name__ [Class "RpcTest" "rpc_test" [RpcAgentTestFixture];
                       Class "JitRpcTest" "jit.rpc_test"
                             [RpcAgentTestFixture]]) /\
  length (generate_tests
            "ProcessGroup"
            (Class "ProcessGroupRpcAgentTestFixture" "fixture"
                   [RpcAgentTestFixture])
            [Class "RpcTest" "rpc_test" [RpcAgentTestFixture];
             Class "JitRpcTest" "jit.rpc_test" [RpcAgentTestFixture]]
            3 "test_process_group_agent") = 4.
Proof.
  assert (H : NoDup (map __name__
                         [Class "RpcTest" "rpc_test" [RpcAgentTestFixture];
                          Class "JitRpcTest" "jit.rpc_test"
                                [RpcAgentTestFixture]])).
  { simpl. repeat constructor; simpl; intuition discriminate. }
  split; [exact H|].
  destruct (@generate_tests_distinct_names
              "ProcessGroup"
              (Class "ProcessGroupRpcAgentTestFixture" "fixture"
                     [RpcAgentTestFixture])
              [Class "RpcTest" "rpc_test" [RpcAgentTestFixture];
               Class "JitRpcTest" "jit.rpc_test" [RpcAgentTestFixture]]
              3 "test_process_group_agent" H) as [_ L].
  exact L.
Defined.

(** A suite name that occurs twice costs entries: the later suite takes
    the place of the earlier one under the same name. *)
Theorem generate_tests_same_name_overwrites
        (prefix : string) (mixin a b : py_class) (mp_type_filter : N)
        (module_name : string) :
  __name__ a = __name__ b ->
  generate_tests prefix mixin [a; b] mp_type_filter module_name =
  generate_tests prefix mixin [b] mp_type_filter module_name.
Proof.
  intros E.
  assert (NF : String.eqb (prefix ++ __name__ b ++ "WithFork")
                          (prefix ++ __name__ b ++ "WithSpawn") = false).
  { apply String.eqb_neq. intros N.
    change (generated_name prefix b FORK = generated_name prefix b SPAWN)
      in N.
    apply generated_name_inj in N. destruct N as [_ N]. discriminate N. }
  unfold generate_tests, MultiProcess_members.
  cbn [fold_left MP_HELPERS_AND_SUFFIXES]. rewrite E.
  destruct (flag_and FORK mp_type_filter), (flag_and SPAWN mp_type_filter);
    repeat (cbn [dict_set]; rewrite ?String.eqb_refl, ?NF); reflexivity.
Qed.

Lemma generate_tests_same_name_overwrites_witness :
  generate_tests "Faulty" RpcAgentTestFixture
                 [Class "RpcTest" "a" []; Class "RpcTest" "b" []] 2 "m" =
  generate_tests "Faulty" RpcAgentTestFixture [Class "RpcTest" "b" []] 2 "m".
Proof.
  exact (@generate_tests_same_name_overwrites
           "Faulty" RpcAgentTestFixture (Class "RpcTest" "a" [])
           (Class "RpcTest" "b" []) 2 "m" eq_refl).
Defined.
